(** * Server bootstrap and lifecycle orchestration of octoprint.server

    A shallow embedding of the parts of [src/octoprint/server/__init__.py]
    that carry the lifecycle fan-out, the route and body-size assembly, the
    intermediary ("port claim") server, the shutdown path and the preemptive
    cache replay, together with the properties established about them.

    Conventions.  A Python call that may raise returns an [outcome]; code
    that mutates objects is written in state-passing style; calls into
    collaborators that are not part of that module (the event manager, the
    watchdog observer, the socket server, the logger) are recorded as
    actions of a trace, in the order in which the source performs them. *)

From Stdlib Require Import ZArith QArith List String Ascii Bool Lia.
From Stdlib Require Import Sorting.Sorted Sorting.Permutation.
From stdpp Require Import gmap strings list fin_maps sorting.

Set Warnings "-register-all".

Local Open Scope string_scope.
Local Open Scope list_scope.

(** ** Python outcomes *)

Inductive exn : Type :=
| AttributeError
| TypeError
| UnicodeDecodeError
| OSError
| CannotStartServerException
| Exception (msg : string).

Inductive outcome (A : Type) : Type :=
| Returned (a : A)
| Raised (e : exn).
Arguments Returned {A} a.
Arguments Raised {A} e.

Definition is_raised {A} (o : outcome A) : bool :=
  match o with Raised _ => true | Returned _ => false end.

(** ** Log records of [logging.Logger] *)

Inductive level : Type := DEBUG | INFO | WARNING | ERROR | FATAL.

(** [logger.exception] logs at level [ERROR]; [lr_plugin] is the
    [extra={"plugin": name}] of the record when the source passes one. *)
Record log_record : Type := LogRecord {
  lr_level : level;
  lr_msg : string;
  lr_plugin : option string
}.

Definition debug (msg : string) : log_record := LogRecord DEBUG msg None.
Definition info (msg : string) : log_record := LogRecord INFO msg None.
Definition warning (msg : string) : log_record := LogRecord WARNING msg None.
Definition exception (msg : string) : log_record := LogRecord ERROR msg None.

(** * LifecycleManager *)

Module Lifecycle.

Section Manager.
(** [W] is the part of the process the registered callbacks act on,
    [plugin] the opaque plugin descriptor handed to them. *)
Context {W plugin : Type}.

(** A registered lifecycle callback [callback(name, plugin)].  Python
    compares callables by identity: [cb_id] is that identity.  [cb_call] is
    what the callable does to the world; the calls it makes to the manager
    itself while it runs are kept apart (see [Dispatch.requests]). *)
Record callback : Type := Callback {
  cb_id : nat;
  cb_call : string -> plugin -> W -> W * outcome unit
}.

(** Ghost record of which callable was entered, in call order. *)
Inductive call : Type :=
| CallUpstream (event : string)
| CallAdded (id : nat).

(** The store the manager works on: [_plugin_lifecycle_callbacks]
    (a [defaultdict(list)]), the records written to [_logger], the world
    of the callbacks, and the ghost call record. *)
Record st : Type := St {
  plugin_lifecycle_callbacks : gmap string (list callback);
  logger : list log_record;
  world : W;
  calls : list call
}.

(** A callable invoked as [h(name, plugin)] on the store. *)
Definition handler : Type := string -> plugin -> st -> st * outcome unit.

(** An attribute value of the plugin manager. *)
Inductive attr : Type :=
| Callable (h : handler)
| NotCallable.

(** [defaultdict.__getitem__]: a missing key is inserted with [list()]. *)
Definition dd_getitem (d : gmap string (list callback)) (k : string)
  : list callback * gmap string (list callback) :=
  match d !! k with
  | Some l => (l, d)
  | None => ([], <[k := []]> d)
  end.

Definition set_callbacks (s : st) (d : gmap string (list callback)) : st :=
  St d (logger s) (world s) (calls s).

(** One call [lifecycle_callback(name, plugin)] of the loop body. *)
Definition invoke (cb : callback) (name : string) (p : plugin) (s : st)
  : st * outcome unit :=
  let '(w', out) := cb_call cb name p (world s) in
  (St (plugin_lifecycle_callbacks s) (logger s) w'
      (calls s ++ [CallAdded (cb_id cb)]), out).

(** [for lifecycle_callback in ...: lifecycle_callback(name, plugin)] for
    callables that leave the list alone while the loop runs (for the others
    see [Dispatch.walk]).  The loop body has no [try]: an exception leaves
    the loop. *)
Fixpoint call_each (cbs : list callback) (name : string) (p : plugin)
    (s : st) : st * outcome unit :=
  match cbs with
  | [] => (s, Returned tt)
  | cb :: rest =>
      match invoke cb name p s with
      | (s', Returned _) => call_each rest name p s'
      | (s', Raised e) => (s', Raised e)
      end
  end.

(** [LifecycleManager.on_plugin_event(event, name, plugin)]. *)
Definition on_plugin_event (event : string) : handler :=
  fun name p s =>
    let '(cbs, d) := dd_getitem (plugin_lifecycle_callbacks s) event in
    call_each cbs name p (set_callbacks s d).

(** The [events] argument of [add_callback] / [remove_callback]. *)
Inductive events_arg : Type :=
| EventStr (event : string)
| EventList (events : list string).

Definition as_list (events : events_arg) : list string :=
  match events with
  | EventStr e => [e]
  | EventList l => l
  end.

(** [LifecycleManager.add_callback(events, callback)]. *)
Definition add_callback (events : events_arg) (cb : callback) (s : st) : st :=
  set_callbacks s
    (fold_left
       (fun d event =>
          let '(l, d') := dd_getitem d event in <[event := l ++ [cb]]> d')
       (as_list events) (plugin_lifecycle_callbacks s)).

(** [callback in l] and [l.remove(callback)] (first occurrence). *)
Definition cb_in (cb : callback) (l : list callback) : bool :=
  existsb (fun c => Nat.eqb (cb_id c) (cb_id cb)) l.

Fixpoint cb_remove (cb : callback) (l : list callback) : list callback :=
  match l with
  | [] => []
  | c :: rest =>
      if Nat.eqb (cb_id c) (cb_id cb) then rest else c :: cb_remove cb rest
  end.

(** [LifecycleManager.remove_callback(callback, events=None)]. *)
Definition remove_callback (cb : callback) (events : option events_arg)
    (s : st) : st :=
  match events with
  | None =>
      set_callbacks s
        ((fun l => if cb_in cb l then cb_remove cb l else l)
           <$> plugin_lifecycle_callbacks s)
  | Some evs =>
      set_callbacks s
        (fold_left
           (fun d event =>
              let '(l, d') := dd_getitem d event in
              if cb_in cb l then <[event := cb_remove cb l]> d' else d')
           (as_list evs) (plugin_lifecycle_callbacks s))
  end.

(** The plugin manager as far as the lifecycle manager touches it: its
    attributes by name. *)
Definition getattr (pm : gmap string attr) (name : string) : outcome attr :=
  match pm !! name with
  | Some a => Returned a
  | None => Raised AttributeError
  end.

(** The inner closure [handler] of [wrap_plugin_event]; its arguments
    are passed on unchanged. *)
Definition wrapped (orig_handler new_handler : attr) : handler :=
  fun name p s =>
    let '(s1, out1) :=
      match orig_handler with
      | Callable h => h name p s
      | NotCallable => (s, Returned tt)
      end in
    match out1 with
    | Raised e => (s1, Raised e)
    | Returned _ =>
        match new_handler with
        | Callable h => h name p s1
        | NotCallable => (s1, Returned tt)
        end
    end.

(** [wrap_plugin_event(lifecycle_event, new_handler)]: reads the current
    attribute and returns the wrapper. *)
Definition wrap_plugin_event (pm : gmap string attr)
    (lifecycle_event : string) (new_handler : attr) : outcome handler :=
  match getattr pm ("on_plugin_" ++ lifecycle_event) with
  | Raised e => Raised e
  | Returned orig_handler => Returned (wrapped orig_handler new_handler)
  end.

(** [on_plugin_event_factory(lifecycle_event)]. *)
Definition on_plugin_event_factory (lifecycle_event : string) : handler :=
  fun name p s => on_plugin_event lifecycle_event name p s.

Definition lifecycle_events : list string :=
  ["loaded"; "unloaded"; "enabled"; "disabled"].

(** The [for event in (...)] loop of [__init__].  The statement
    [wrap_plugin_event(event, on_plugin_event_factory(event))] is an
    expression statement: the wrapper it returns is dropped, and nothing
    is assigned to the plugin manager. *)
Fixpoint init_loop (pm : gmap string attr) (events : list string)
  : gmap string attr * outcome unit :=
  match events with
  | [] => (pm, Returned tt)
  | event :: rest =>
      match wrap_plugin_event pm event
              (Callable (on_plugin_event_factory event)) with
      | Raised e => (pm, Raised e)
      | Returned _ => init_loop pm rest
      end
  end.

(** [LifecycleManager.__init__(plugin_manager)]: the plugin manager after
    the constructor ran, and the fresh store of the manager. *)
Definition init (pm : gmap string attr) (w : W)
  : gmap string attr * st * outcome unit :=
  let s := St ∅ [] w [] in
  let '(pm', out) := init_loop pm lifecycle_events in
  (pm', s, out).

(** Modelled from the spec: the plugin subsystem is not part of the module;
    per the spec it "produces" the plugin state transitions, which it
    signals by calling its own [on_plugin_<event>(name, plugin)]
    attribute. *)
Definition signal (pm : gmap string attr) (event : string) : handler :=
  fun name p s =>
    match getattr pm ("on_plugin_" ++ event) with
    | Raised e => (s, Raised e)
    | Returned (Callable h) => h name p s
    | Returned NotCallable => (s, Raised TypeError)
    end.

(** A pre-existing handler of the plugin manager that acts on the world;
    the ghost record notes that it was entered. *)
Definition upstream (event : string)
    (f : string -> plugin -> W -> W * outcome unit) : handler :=
  fun name p s =>
    let '(w', out) := f name p (world s) in
    (St (plugin_lifecycle_callbacks s) (logger s) w'
        (calls s ++ [CallUpstream event]), out).

(** The callbacks currently registered for [event]. *)
Definition registered (s : st) (event : string) : list callback :=
  default [] (plugin_lifecycle_callbacks s !! event).

End Manager.

Arguments callback : clear implicits.
Arguments st : clear implicits.
Arguments handler : clear implicits.
Arguments attr : clear implicits.

(** Two subscribers of "enabled": [A] raises, [B] returns.  Each notes its
    name in the world. *)
Definition A : callback (list string) unit :=
  Callback 1 (fun _ _ w => ((w ++ ["A"])%list, Raised (Exception "boom"))).

Definition B : callback (list string) unit :=
  Callback 2 (fun _ _ w => ((w ++ ["B"])%list, Returned tt)).

Definition fresh : st (list string) unit := St ∅ [] [] [].

Definition subscribed_A_B : st (list string) unit :=
  add_callback (EventStr "enabled") B (add_callback (EventStr "enabled") A fresh).

(** A plugin manager whose four [on_plugin_<event>] attributes are
    pre-existing handlers that note "upstream" in the world. *)
Definition upstream_noting (event : string) : attr (list string) unit :=
  Callable (upstream event (fun _ _ w => ((w ++ ["upstream"])%list, Returned tt))).

Definition plugin_manager_0 : gmap string (attr (list string) unit) :=
  <["on_plugin_loaded" := upstream_noting "loaded"]>
  (<["on_plugin_unloaded" := upstream_noting "unloaded"]>
  (<["on_plugin_enabled" := upstream_noting "enabled"]>
  (<["on_plugin_disabled" := upstream_noting "disabled"]> ∅))).

(** [LifecycleManager(plugin_manager_0)], then [add_callback("enabled", B)],
    then the plugin subsystem signals "enabled" for "pluginX". *)
Definition signal_enabled_after_init
  : st (list string) unit * outcome unit :=
  let '(pm, s, _) := init plugin_manager_0 [] in
  signal pm "enabled" "pluginX" tt (add_callback (EventStr "enabled") B s).

End Lifecycle.

(** * The dispatch and callbacks that register or remove callbacks *)

Module Dispatch.
Import Lifecycle.

Section Live.
Context {W plugin : Type}.

(** A call that a callback makes to the manager while it runs:
    [add_callback] or [remove_callback].  (A callback that calls
    [on_plugin_event] itself starts a dispatch within the dispatch; that
    is not followed here.) *)
Inductive request : Type :=
| AddCallback (events : events_arg) (cb : callback W plugin)
| RemoveCallback (cb : callback W plugin) (events : option events_arg).

Definition perform (s : st W plugin) (r : request) : st W plugin :=
  match r with
  | AddCallback events cb => add_callback events cb s
  | RemoveCallback cb events => remove_callback cb events s
  end.

(** [requests id name plugin w]: the calls of [add_callback] and
    [remove_callback] that the callable with identity [id] makes, in order,
    when it is called with [(name, plugin)] in world [w].  The manager has
    no method that lets a callable read the registered lists. *)
Variable requests : nat -> string -> plugin -> W -> list request.

(** One call [lifecycle_callback(name, plugin)] of the loop body, with what
    the callable asks of the manager; it may do so and then raise. *)
Definition enter (cb : callback W plugin) (name : string) (p : plugin)
    (s : st W plugin) : st W plugin * outcome unit :=
  let '(s', out) := invoke cb name p s in
  (fold_left perform (requests (cb_id cb) name p (world s)) s', out).

(** [for lifecycle_callback in self._plugin_lifecycle_callbacks[event]].
    The loop goes over the list object itself, and [add_callback] and
    [remove_callback] change that object in place: Python's list iterator
    keeps a position [i] and, before each round, compares it with the
    length the list has by then.  A callback that keeps appending to the
    list keeps the loop running: [None] when [fuel] rounds did not reach
    the end of the list. *)
Fixpoint walk (fuel : nat) (event : string) (i : nat) (name : string)
    (p : plugin) (s : st W plugin) : option (st W plugin * outcome unit) :=
  match fuel with
  | O => None
  | S fuel =>
      match registered s event !! i with
      | None => Some (s, Returned tt)
      | Some cb =>
          match enter cb name p s with
          | (s', Returned _) => walk fuel event (S i) name p s'
          | (s', Raised e) => Some (s', Raised e)
          end
      end
  end.

(** [LifecycleManager.on_plugin_event(event, name, plugin)], callbacks that
    change the registered lists included. *)
Definition dispatch (fuel : nat) (event name : string) (p : plugin)
    (s : st W plugin) : option (st W plugin * outcome unit) :=
  let '(_, d) := dd_getitem (plugin_lifecycle_callbacks s) event in
  walk fuel event 0 name p (set_callbacks s d).

(** The ghost record of entering [cbs] one after the other. *)
Definition ids (cbs : list (callback W plugin)) : list call :=
  map (fun cb => CallAdded (cb_id cb)) cbs.

(** The callbacks [cbs] ask nothing of the manager. *)
Definition quiet (cbs : list (callback W plugin)) (name : string) (p : plugin)
  : Prop :=
  forall cb w, In cb cbs -> requests (cb_id cb) name p w = [].

(** The world after the callables [cbs] were called one after the other
    from world [w], when each of them returns. *)
Fixpoint returns_through (cbs : list (callback W plugin)) (name : string)
    (p : plugin) (w : W) : option W :=
  match cbs with
  | [] => Some w
  | cb :: rest =>
      match cb_call cb name p w with
      | (w', Returned _) => returns_through rest name p w'
      | (_, Raised _) => None
      end
  end.

End Live.

Arguments request : clear implicits.

(** The dispatch as the specification words it: no error reaches the
    caller and every registered callback is entered, in registration
    order. *)
Definition isolates_errors : Prop :=
  forall (W plugin : Type) (requests : nat -> string -> plugin -> W -> list (request W plugin))
         (s : st W plugin) (event name : string) (p : plugin),
    quiet requests (registered s event) name p ->
    exists fuel s',
      dispatch requests fuel event name p s = Some (s', Returned tt)
      /\ calls s'
         = (calls s ++ map (fun cb => CallAdded (cb_id cb)) (registered s event))%list.

(** Callables that ask nothing of the manager. *)
Definition no_requests {W plugin : Type}
  : nat -> string -> plugin -> W -> list (request W plugin) :=
  fun _ _ _ _ => [].

(** [Leaver] removes itself from every list when it is called; [Joiner]
    registers [B] for "enabled" when it is called; [Repeater] registers
    itself for "enabled" once more at every call. *)
Definition Leaver : callback (list string) unit :=
  Callback 3 (fun _ _ w => ((w ++ ["Leaver"])%list, Returned tt)).

Definition Joiner : callback (list string) unit :=
  Callback 4 (fun _ _ w => ((w ++ ["Joiner"])%list, Returned tt)).

Definition Repeater : callback (list string) unit :=
  Callback 5 (fun _ _ w => ((w ++ ["Repeater"])%list, Returned tt)).

Definition leave_and_join (id : nat) (name : string) (p : unit)
    (w : list string) : list (request (list string) unit) :=
  match id with
  | 3%nat => [RemoveCallback Leaver None]
  | 4%nat => [AddCallback (EventStr "enabled") B]
  | 5%nat => [AddCallback (EventStr "enabled") Repeater]
  | _ => []
  end.

(** "enabled" with subscribers [Leaver; A; B], and with subscriber
    [Joiner] alone. *)
Definition subscribed_Leaver_A_B : st (list string) unit :=
  add_callback (EventStr "enabled") B
    (add_callback (EventStr "enabled") A
       (add_callback (EventStr "enabled") Leaver fresh)).

Definition subscribed_Joiner : st (list string) unit :=
  add_callback (EventStr "enabled") Joiner fresh.

Definition subscribed_Repeater : st (list string) unit :=
  add_callback (EventStr "enabled") Repeater fresh.

End Dispatch.

(** * Route table and body-size assembly *)

Module Routes.

(** Python values as far as the hook results are inspected.  [PyObj] is any
    other object (a handler class, a validator, ...), named by its
    qualified name. *)
Inductive pyval : Type :=
| PyNone
| PyBool (b : bool)
| PyInt (z : Z)
| PyStr (s : string)
| PyObj (name : string)
| PyDict (items : list (string * pyval))
| PyTuple (items : list pyval)
| PyList (items : list pyval).

(** An entry of [server_routes]: [(route, handler, kwargs)]. *)
Definition route : Type := string * pyval * pyval.

Definition pattern (r : route) : string := r.1.1.

(** An entry of [max_body_sizes]: [(method, route, size)]. *)
Definition body_size : Type := string * string * pyval.


(** [route if not route.startswith("/") else route[1:]]. *)
Definition strip_slash (route : string) : string :=
  match route with
  | String "/"%char rest => rest
  | _ => route
  end.

(** [r"/plugin/{name}/{route}".format(name=name, route=...)]. *)
Definition plugin_route (name route : string) : string :=
  "/plugin/" ++ name ++ "/" ++ strip_slash route.

(** A hook is called with a copy of the list built so far and returns any
    value, or raises. *)
Definition hook (A : Type) : Type := list A -> outcome pyval.

Definition hook_error (what name : string) : log_record :=
  LogRecord ERROR
    ("There was an error while retrieving additional " ++ what ++
     " from plugin hook " ++ name) (Some name).


(** [isinstance(result, (list, tuple))]. *)
Definition entries_of (result : pyval) : option (list pyval) :=
  match result with
  | PyList l | PyTuple l => Some l
  | _ => None
  end.








(** [isinstance(entry[2], int)]; [bool] is a subclass of [int]. *)
Definition is_int (v : pyval) : bool :=
  match v with
  | PyInt _ | PyBool _ => true
  | _ => false
  end.

(** [entry[0] in BODY_METHODS]; only a string equals a member. *)
Definition in_methods (body_methods : list string) (v : pyval) : bool :=
  match v with
  | PyStr m => existsb (String.eqb m) body_methods
  | _ => false
  end.

(** The body of [for entry in result] of [_get_max_body_sizes].  The route
    at [entry[1]] is not type-checked: [route.startswith] raises on a value
    that is not a string, outside any [try]. *)
Definition add_body_size (body_methods : list string) (name : string)
    (acc : outcome (list body_size * list log_record)) (entry : pyval)
  : outcome (list body_size * list log_record) :=
  match acc with
  | Raised e => Raised e
  | Returned acc =>
      match entry with
      | PyTuple [method; route; size] =>
          if negb (in_methods body_methods method) then Returned acc
          else if negb (is_int size) then Returned acc
          else
            match method, route with
            | PyStr method, PyStr route =>
                let route := plugin_route name route in
                Returned
                  (acc.1 ++ [(method, route, size)],
                   acc.2 ++ [debug ("Adding maximum body size for " ++ method
                                    ++ " requests to " ++ route ++ ")")])
            | _, _ => Raised AttributeError
            end
      | _ => Returned acc
      end
  end.

Definition body_size_hook_step (body_methods : list string)
    (acc : outcome (list body_size * list log_record))
    (nh : string * hook body_size)
  : outcome (list body_size * list log_record) :=
  let '(name, hook) := nh in
  match acc with
  | Raised e => Raised e
  | Returned acc =>
      match hook acc.1 with
      | Raised _ => Returned (acc.1, acc.2 ++ [hook_error "upload sizes" name])
      | Returned result =>
          match entries_of result with
          | Some entries =>
              fold_left (add_body_size body_methods name) entries (Returned acc)
          | None => Returned acc
          end
      end
  end.

(** The two built-in limits; [uploads_max_size] is
    [settings.getInt(["server", "uploads", "maxSize"])]. *)
Definition builtin_body_sizes (uploads_max_size : Z) : list body_size :=
  [ ("POST", "/api/files/([^/]*)", PyInt uploads_max_size);
    ("POST", "/api/languages", PyInt (5 * 1024 * 1024)) ].

(** [Server._get_max_body_sizes].  [body_methods] is
    [UploadStorageFallbackHandler.BODY_METHODS], defined in
    [octoprint.server.util.tornado]. *)
Definition _get_max_body_sizes (body_methods : list string)
    (uploads_max_size : Z) (hooks : list (string * hook body_size))
  : outcome (list body_size * list log_record) :=
  fold_left (body_size_hook_step body_methods) hooks
    (Returned (builtin_body_sizes uploads_max_size, [])).








End Routes.

(** * Patterns as regular expressions *)

(** The patterns of the route table are regular expressions of Python's
    [re], and so is the key whitelist of the plugin permissions.  This is
    [re] for the syntax these patterns are written in: literal characters,
    [.], character classes with ranges, groups, [*], [|] and [$].  A
    pattern with other syntax is not parsed.  The strings matched are
    request paths and permission keys; [$] is taken at the end of the
    string (Python also accepts it before a final newline, which these
    strings do not hold). *)
Module Regex.

Inductive re : Type :=
| Never
| Empty
| Char (c : ascii)
| AnyChar
| Class (negated : bool) (ranges : list (ascii * ascii))
| End_
| Cat (r1 r2 : re)
| Alt (r1 r2 : re)
| Star (r : re).

(** Whether [r] matches the empty string; [$] does so at the end of the
    input only. *)
Fixpoint nullable (at_end : bool) (r : re) : bool :=
  match r with
  | Never | Char _ | AnyChar | Class _ _ => false
  | Empty | Star _ => true
  | End_ => at_end
  | Cat r1 r2 => nullable at_end r1 && nullable at_end r2
  | Alt r1 r2 => nullable at_end r1 || nullable at_end r2
  end.

Definition in_ranges (ranges : list (ascii * ascii)) (c : ascii) : bool :=
  existsb (fun '(lo, hi) =>
             Nat.leb (nat_of_ascii lo) (nat_of_ascii c)
             && Nat.leb (nat_of_ascii c) (nat_of_ascii hi)) ranges.

(** What is left of [r] after it has read [c].  [.] reads any character but
    a newline. *)
Fixpoint deriv (c : ascii) (r : re) : re :=
  match r with
  | Never | Empty | End_ => Never
  | Char d => if Ascii.eqb c d then Empty else Never
  | AnyChar => if Ascii.eqb c "010"%char then Never else Empty
  | Class negated ranges =>
      if xorb negated (in_ranges ranges c) then Empty else Never
  | Cat r1 r2 =>
      if nullable false r1
      then Alt (Cat (deriv c r1) r2) (deriv c r2)
      else Cat (deriv c r1) r2
  | Alt r1 r2 => Alt (deriv c r1) (deriv c r2)
  | Star r1 => Cat (deriv c r1) (Star r1)
  end.

(** [pattern.match(s)] is not [None]: [r] matches a prefix of [s]. *)
Fixpoint prefix_match (r : re) (s : string) : bool :=
  match s with
  | EmptyString => nullable true r
  | String c rest => nullable false r || prefix_match (deriv c r) rest
  end.

(** The characters with a meaning of their own. *)
Definition special (c : ascii) : bool :=
  existsb (Ascii.eqb c)
    [ "("; ")"; "["; "]"; "{"; "}"; "|"; "*"; "+"; "?"; "."; "$"; "^";
      "092" ]%char.

(** The items of a character class up to its closing bracket. *)
Fixpoint parse_items (s : string) : option (list (ascii * ascii) * string) :=
  match s with
  | EmptyString => None
  | String "]"%char rest => Some ([], rest)
  | String "092"%char _ => None
  | String lo (String "-"%char (String hi rest)) =>
      if Ascii.eqb hi "]"%char then Some ([(lo, lo); ("-", "-")]%char, rest)
      else
        match parse_items rest with
        | Some (items, rest') => Some ((lo, hi) :: items, rest')
        | None => None
        end
  | String c rest =>
      match parse_items rest with
      | Some (items, rest') => Some ((c, c) :: items, rest')
      | None => None
      end
  end.

Definition parse_class (s : string) : option (re * string) :=
  match s with
  | String "^"%char rest =>
      match parse_items rest with
      | Some (items, rest') => Some (Class true items, rest')
      | None => None
      end
  | _ =>
      match parse_items s with
      | Some (items, rest') => Some (Class false items, rest')
      | None => None
      end
  end.

(** Alternation binds weakest, then concatenation, then [*]. *)
Fixpoint parse_alt (fuel : nat) (s : string) : option (re * string) :=
  match fuel with
  | O => None
  | S fuel =>
      match parse_cat fuel s with
      | Some (r1, String "|"%char rest) =>
          match parse_alt fuel rest with
          | Some (r2, rest') => Some (Alt r1 r2, rest')
          | None => None
          end
      | other => other
      end
  end
with parse_cat (fuel : nat) (s : string) : option (re * string) :=
  match fuel with
  | O => None
  | S fuel =>
      match s with
      | EmptyString => Some (Empty, s)
      | String "|"%char _ => Some (Empty, s)
      | String ")"%char _ => Some (Empty, s)
      | _ =>
          match parse_rep fuel s with
          | Some (r1, rest) =>
              match parse_cat fuel rest with
              | Some (r2, rest') => Some (Cat r1 r2, rest')
              | None => None
              end
          | None => None
          end
      end
  end
with parse_rep (fuel : nat) (s : string) : option (re * string) :=
  match fuel with
  | O => None
  | S fuel =>
      match parse_atom fuel s with
      | Some (r, String "*"%char rest) => Some (Star r, rest)
      | other => other
      end
  end
with parse_atom (fuel : nat) (s : string) : option (re * string) :=
  match fuel with
  | O => None
  | S fuel =>
      match s with
      | EmptyString => None
      | String "("%char rest =>
          match parse_alt fuel rest with
          | Some (r, String ")"%char rest') => Some (r, rest')
          | _ => None
          end
      | String "["%char rest => parse_class rest
      | String "."%char rest => Some (AnyChar, rest)
      | String "$"%char rest => Some (End_, rest)
      | String c rest => if special c then None else Some (Char c, rest)
      end
  end.

(** [re.compile(pattern)]. *)
Definition compile (pattern : string) : option re :=
  match parse_alt (4 * String.length pattern + 4) pattern with
  | Some (r, EmptyString) => Some r
  | _ => None
  end.

End Regex.

(** * Matching a request path against the route table *)

Module Routing.
Import Routes.






End Routing.

(** * Shutdown handlers *)

Module Shutdown.

(** What [_register_shutdown_handlers] and the closures it defines do to
    their collaborators, in source order. *)
Inductive action : Type :=
| Log (r : log_record)
| ObserverStop
| ObserverJoin
| Fire (event : string)
| CallPlugin (type method : string)
| EventManagerJoin (timeout : Q)
| DaemonTerminated
| AtexitRegister (f : string)
| SignalSIGTERM (f : string)
| AddCallbackFromSignal (f : string)
| IOLoopStop.

(** The attributes of [Server] the shutdown path reads: whether
    [_watched_observer] is set (an observer object is truthy) and whether
    [_octoprint_daemon] is not [None]. *)
Record server : Type := Server {
  _watched_observer : bool;
  _octoprint_daemon : bool
}.

(** [events.Events.SHUTDOWN]. *)
Definition SHUTDOWN : string := "Shutdown".

(** [Server._call_shutdown_plugins]. *)
Definition _call_shutdown_plugins : list action :=
  [ Log (info "Calling on_shutdown on plugins");
    CallPlugin "ShutdownPlugin" "on_shutdown" ].

(** [event_timeout = 15.0]. *)
Definition event_timeout : Q := 15%Q.

(** The closure [on_shutdown] of [_register_shutdown_handlers].
    [still_busy] is what [eventManager.join(timeout=event_timeout)]
    returns.  No attribute of [self] is assigned: the server is returned as
    it was. *)
Definition on_shutdown (self : server) (still_busy : bool)
  : server * list action :=
  (self,
   [ Log (info "Shutting down...") ]
   ++ (if _watched_observer self then [ObserverStop; ObserverJoin] else [])
   ++ [ Fire SHUTDOWN ]
   ++ _call_shutdown_plugins
   ++ [ EventManagerJoin event_timeout ]
   ++ (if still_busy
       then [ Log (warning "Event loop was still busy processing after 15.0s, shutting down anyhow") ]
       else [])
   ++ (if _octoprint_daemon self
       then [ Log (info "Cleaning up daemon pidfile"); DaemonTerminated ]
       else [])
   ++ [ Log (info "Goodbye!") ]).

(** The closure [shutdown_tornado] of [sigterm_handler]. *)
Definition shutdown_tornado : list action :=
  [ Log (debug "Shutting down tornado's IOLoop..."); IOLoopStop ].

(** The closure [sigterm_handler]. *)
Definition sigterm_handler : list action :=
  [ Log (debug "SIGTERM received..."); AddCallbackFromSignal "shutdown_tornado" ].

(** [Server._register_shutdown_handlers]. *)
Definition _register_shutdown_handlers : list action :=
  [ AtexitRegister "on_shutdown"; SignalSIGTERM "sigterm_handler" ].

(** The closures by the names under which they are handed to [atexit],
    [signal] and the IOLoop. *)
Definition closure (self : server) (still_busy : bool) (f : string)
  : list action :=
  if String.eqb f "on_shutdown" then (on_shutdown self still_busy).2
  else if String.eqb f "sigterm_handler" then sigterm_handler
  else if String.eqb f "shutdown_tornado" then shutdown_tornado
  else [].

(** What a trace registered with [atexit], in registration order, and the
    handler it installed last for SIGTERM. *)
Definition atexit_registered (t : list action) : list string :=
  flat_map (fun a => match a with AtexitRegister f => [f] | _ => [] end) t.

Definition sigterm_installed (t : list action) : list string :=
  flat_map (fun a => match a with SignalSIGTERM f => [f] | _ => [] end) t.

(** One delivery of SIGTERM: the interpreter calls the installed handler;
    the IOLoop, when it still runs, then calls what the handler scheduled
    with [add_callback_from_signal].  A loop that has stopped calls nothing
    any more. *)
Definition scheduled (t : list action) : list string :=
  flat_map (fun a => match a with AddCallbackFromSignal f => [f] | _ => [] end) t.

Definition deliver_sigterm (self : server) (still_busy : bool)
    (installed : list string) (loop_running : bool) : list action :=
  match last installed with
  | None => []
  | Some f =>
      closure self still_busy f
      ++ (if loop_running
          then flat_map (closure self still_busy)
                 (scheduled (closure self still_busy f))
          else [])
  end.

(** [atexit] at interpreter exit: every registered function is called once,
    the last registered first. *)
Definition run_exitfuncs (self : server) (still_busy : bool)
    (registered : list string) : list action :=
  flat_map (closure self still_busy) (rev registered).

(** A SIGTERM that arrives while the exit functions run is handled between
    two of their steps: [positions] are the places in the trace. *)
Fixpoint deliver_during (handled : list action) (positions : list nat)
    (t : list action) : list action :=
  match positions with
  | [] => t
  | k :: rest =>
      let t' := deliver_during handled rest t in
      take k t' ++ handled ++ drop k t'
  end.

(** The end of the process.  [run] calls [_register_shutdown_handlers]
    once and enters the IOLoop.  Any number of SIGTERMs may arrive
    ([sigterms], each with whether the loop still runs at that moment);
    once the loop has stopped or was left otherwise, [run] is left and the
    interpreter exits, running the [atexit] functions; SIGTERMs may still
    arrive meanwhile ([late]). *)
Definition termination (self : server) (still_busy : bool)
    (sigterms : list bool) (late : list nat) : list action :=
  let registration := _register_shutdown_handlers in
  let installed := sigterm_installed registration in
  registration
  ++ flat_map (deliver_sigterm self still_busy installed) sigterms
  ++ deliver_during (deliver_sigterm self still_busy installed false) late
       (run_exitfuncs self still_busy (atexit_registered registration)).

Definition is_fire_shutdown (a : action) : bool :=
  match a with Fire e => String.eqb e SHUTDOWN | _ => false end.
Definition is_observer_stop (a : action) : bool :=
  match a with ObserverStop => true | _ => false end.
Definition is_observer_join (a : action) : bool :=
  match a with ObserverJoin => true | _ => false end.
Definition is_daemon_terminated (a : action) : bool :=
  match a with DaemonTerminated => true | _ => false end.
Definition is_ioloop_stop (a : action) : bool :=
  match a with IOLoopStop => true | _ => false end.
Definition is_warning (a : action) : bool :=
  match a with Log (LogRecord WARNING _ _) => true | _ => false end.

(** How often an action of a kind occurs in a trace. *)
Definition occurrences (f : action -> bool) (t : list action) : nat :=
  length (List.filter f t).

Definition is_plugin_shutdown (a : action) : bool :=
  match a with CallPlugin _ m => String.eqb m "on_shutdown" | _ => false end.

(** The timeout branch as the specification words it: after the warning
    the daemon is notified and the event loop is stopped. *)
Definition teardown_after_timeout : Prop :=
  forall self : server,
    exists t1 t2 t3,
      (on_shutdown self true).2
      = (t1 ++ [Fire SHUTDOWN] ++ t2 ++ [EventManagerJoin 15%Q] ++ t3)%list
      /\ In DaemonTerminated t3 /\ In IOLoopStop t3.

(** A server with a watched-folder observer and a daemon. *)
Definition watching : server := Server true true.

End Shutdown.

(** * Intermediary server and port handover *)

Module Intermediary.

(** The calls [Server.run] and the intermediary-server methods make, in
    source order.  [Step] is a call of [run] that does not touch the
    listening socket. *)
Inductive op : Type :=
| Logged (r : log_record)
| Step (name : string)
| CreateServer
| SetCloseExec (marked : bool)
| ServerBind (bound : bool)
| ServerActivate (ok : bool)
| ServerClose
| StartThread (target : string)
| ServerShutdown
| Listen.

(** [self._intermediary_server is not None]. *)
Record bootstrap : Type := Bootstrap { _intermediary_server : bool }.

(** What the environment answers to the fallible calls of
    [_start_intermediary_server]. *)
Record env : Type := Env {
  win32 : bool;
  set_close_exec : outcome unit;
  server_bind : outcome unit;
  server_activate : outcome unit
}.

(** The [except Exception as exc] branch around bind and activate. *)
Definition bind_failure (win32 : bool) (exc : exn) : exn :=
  match exc with
  | UnicodeDecodeError => if win32 then CannotStartServerException else exc
  | _ => exc
  end.

(** Modelled from the spec: [set_close_exec] lives in
    [octoprint.util.platform], not in the module; when it returns it has
    given the descriptor "close-on-exec semantics", otherwise it raises. *)
Definition try_set_close_exec (result : outcome unit) : list op :=
  match result with
  | Returned _ => [ SetCloseExec true ]
  | Raised _ =>
      [ SetCloseExec false;
        Logged (exception "Error while attempting to set_close_exec on intermediary server socket") ]
  end.

(** [Server._start_intermediary_server]. *)
Definition _start_intermediary_server (e : env) (self : bootstrap)
  : bootstrap * list op * outcome unit :=
  let self := Bootstrap true in
  let t := [ Logged (debug "Starting intermediary server"); CreateServer ]
           ++ try_set_close_exec (set_close_exec e) in
  match server_bind e with
  | Raised exc =>
      (self, t ++ [ ServerBind false; ServerClose ],
       Raised (bind_failure (win32 e) exc))
  | Returned _ =>
      match server_activate e with
      | Raised exc =>
          (self, t ++ [ ServerBind true; ServerActivate false; ServerClose ],
           Raised (bind_failure (win32 e) exc))
      | Returned _ =>
          (self,
           t ++ [ ServerBind true; ServerActivate true; StartThread "serve";
                  Logged (info "Intermediary server started") ],
           Returned tt)
      end
  end.

(** [Server._stop_intermediary_server]. *)
Definition _stop_intermediary_server (self : bootstrap) : list op :=
  if negb (_intermediary_server self) then []
  else [ Logged (info "Shutting down intermediary server...");
         ServerShutdown; ServerClose;
         Logged (info "Intermediary server shut down") ].

(** [Server._initialize_and_bind_server]: [server.listen(port, address)]
    binds the full server. *)
Definition _initialize_and_bind_server : list op := [ Listen ].

(** The calls of [run] before the intermediary server starts. *)
Definition network_setup : list string :=
  [ "_ensure_host"; "_ensure_port"; "_setup_monkey_patching";
    "_setup_mimetypes"; "_setup_flask_app"; "_setup_i18n" ].

(** The calls of [run] made while the intermediary server holds the
    port. *)
Definition heavy_initialization : list string :=
  [ "system_command_manager"; "PrinterProfileManager";
    "_setup_analysis_queue"; "_setup_slicing_manager"; "_setup_file_manager";
    "LifecycleManager"; "PreemptiveCache";
    "_setup_json_encoding"; "_setup_connectivity_checker";
    "_setup_plugin_permissions"; "_setup_group_manager";
    "_setup_user_manager"; "_setup_printer"; "_setup_plugin_manager";
    "log_detected_environment"; "_setup_jinja2"; "_setup_assets";
    "_setup_timelapse"; "_setup_command_triggers"; "_setup_login_manager";
    "_setup_blueprints"; "_check_simple_api_plugins"; "_start_event_loop";
    "_setup_tornado_app"; "_get_max_body_sizes" ].

(** The calls of [run] after the full server is bound. *)
Definition startup : list string :=
  [ "fire_STARTUP"; "_start_analysis_backlog"; "_start_serial_autoconnect";
    "_start_serial_autorefresh"; "_start_watched_observer";
    "_call_startup_plugins"; "_trigger_after_startup";
    "_register_shutdown_handlers"; "IOLoop_start" ].

(** [Server.run], from the network setup to the start of the event loop.
    The [Step]s are taken to return; a failure to start the intermediary
    server leaves [run]. *)
Definition run (e : env) : list op * outcome unit :=
  let self := Bootstrap false in
  let '(self, t, out) := _start_intermediary_server e self in
  match out with
  | Raised exc => (map Step network_setup ++ t, Raised exc)
  | Returned _ =>
      (map Step network_setup ++ t
       ++ map Step heavy_initialization
       ++ _stop_intermediary_server self
       ++ _initialize_and_bind_server
       ++ map Step startup,
       Returned tt)
  end.

(** Modelled from the spec: who holds the listening port ("owned by
    exactly one of PortClaimServer, full service"), and whether the
    placeholder's descriptor is close-on-exec.  The operating system is not
    part of the module. *)
Record port : Type := Port {
  placeholder_bound : bool;
  service_bound : bool;
  close_on_exec : bool
}.

(** Before [run] there is no socket: nobody holds the port and there is no
    descriptor to speak of. *)
Definition unbound : port := Port false false false.

(** What an operation does to the port.  [ServerClass(..., bind_and_activate
    =False)] creates the socket with [socket.socket]; the module is Python 3
    (it uses f-strings), where a new socket is not inheritable: its
    descriptor is close-on-exec from its creation on.  A [set_close_exec]
    that returns sets the flag again; one that raises leaves the descriptor
    as it is. *)
Definition apply_op (p : port) (a : op) : port :=
  match a with
  | CreateServer => Port (placeholder_bound p) (service_bound p) true
  | SetCloseExec true => Port (placeholder_bound p) (service_bound p) true
  | ServerBind true => Port true (service_bound p) (close_on_exec p)
  | ServerClose => Port false (service_bound p) (close_on_exec p)
  | Listen => Port (placeholder_bound p) true (close_on_exec p)
  | _ => p
  end.

Definition exec (t : list op) : port := fold_left apply_op t unbound.

Definition owners (p : port) : nat :=
  (Nat.b2n (placeholder_bound p) + Nat.b2n (service_bound p))%nat.

(** The port at the instant after the first [n] operations of [t]. *)
Definition instant (t : list op) (n : nat) : port := exec (take n t).

Definition is_bind (a : op) : bool :=
  match a with ServerBind _ => true | _ => false end.
Definition is_listen (a : op) : bool :=
  match a with Listen => true | _ => false end.

(** The environment in which every call succeeds. *)
Definition all_fine : env := Env false (Returned tt) (Returned tt) (Returned tt).

(** An environment in which [set_close_exec] raises. *)
Definition no_close_exec : env :=
  Env false (Raised OSError) (Returned tt) (Returned tt).

(** The port at every instant of a trace, from before its first op to
    after its last. *)
Definition instants (t : list op) : list port :=
  map (instant t) (seq 0 (S (length t))).

(** The handover as the specification words it: from the moment the
    intermediary server is bound, the port has exactly one owner at every
    instant. *)
Definition always_one_owner : Prop :=
  forall (e : env) (k n : nat),
    (run e).2 = Returned tt ->
    (run e).1 !! k = Some (ServerBind true) ->
    (k < n)%nat ->
    owners (instant (run e).1 n) = 1%nat.

(** The start as the specification words it: when the socket is bound its
    descriptor is close-on-exec. *)
Definition marked_before_bind : Prop :=
  forall (e : env) (self : bootstrap) (n : nat),
    (_start_intermediary_server e self).1.2 !! n = Some (ServerBind true) ->
    close_on_exec (instant (_start_intermediary_server e self).1.2 n) = true.

End Intermediary.

(** * Python's [sorted] *)

(** [sorted] is a stable sort that only asks whether one key is smaller
    than another.  [before y x] says that [y] has to come strictly before
    [x]; elements that are not ordered by [before] keep the order of the
    input.  Every stable sort returns this list. *)
Section Sorted.
Context {A : Type} (before : A -> A -> bool).

Fixpoint insert_sorted (x : A) (l : list A) : list A :=
  match l with
  | [] => [x]
  | y :: l' => if before y x then y :: insert_sorted x l' else x :: l
  end.

Fixpoint sorted (l : list A) : list A :=
  match l with
  | [] => []
  | x :: l' => insert_sorted x (sorted l')
  end.
End Sorted.

(** * Preemptive cache replay *)

Module PreemptiveCache.

(** An entry of the preemptive cache file: the keys the replay inspects,
    each absent ([None]) or of the type the recorder writes, and the
    remaining keys of the recorded request.  [base_url] is [None] also for a
    recorded [None] value. *)
Record entry : Type := Entry {
  _timestamp : option Q;
  base_url : option string;
  _count : option Z;
  plugin : option string;
  request : list (string * string)
}.

(** [a > b] on numbers. *)
Definition Qgtb (a b : Q) : bool := negb (Qle_bool a b).

(** [time.time() - preemptive_cache_timeout * 24 * 60 * 60], [now] being
    [time.time()] and [timeout] the setting
    [server.preemptiveCache.until] (days). *)
Definition cutoff_timestamp (now : Q) (timeout : Z) : Q :=
  (now - inject_Z (timeout * 24 * 60 * 60)%Z)%Q.

(** [filter_current_entries]. *)
Definition filter_current_entries (cutoff : Q) (e : entry) : bool :=
  match _timestamp e with
  | Some t => Qgtb t cutoff
  | None => false
  end.

(** [filter_http_entries]; the empty string is falsy. *)
Definition filter_http_entries (e : entry) : bool :=
  match base_url e with
  | Some u =>
      negb (String.eqb u "")
      && (String.prefix "http://" u || String.prefix "https://" u)
  | None => false
  end.

(** [filter_entries]: [all(f(entry) for f in filters)]. *)
Definition filter_entries (cutoff : Q) (e : entry) : bool :=
  forallb (fun f => f e) [ filter_current_entries cutoff; filter_http_entries ].

(** The function handed to [clean_all_data]:
    [lambda root, entries: list(filter(filter_entries, entries))]. *)
Definition cleanup (cutoff : Q) (root : string) (entries : list entry)
  : list entry :=
  List.filter (filter_entries cutoff) entries.

(** Modelled from the spec: [PreemptiveCache.clean_all_data] is defined
    in [octoprint.server.util.flask]; per the spec the recorded entries are
    "pruned" at startup: the cleanup function is applied to the entries of
    every route, a route left without entries is dropped, and the pruned
    data is returned. *)
Definition clean_all_data (cleanup_function : string -> list entry -> list entry)
    (all_data : gmap string (list entry)) : gmap string (list entry) :=
  map_imap
    (fun root entries =>
       match cleanup_function root entries with
       | [] => None
       | l => Some l
       end)
    all_data.

(** [x.count(c)] for a one-character [c]. *)
Fixpoint count (c : ascii) (x : string) : nat :=
  match x with
  | EmptyString => 0%nat
  | String a rest => ((if Ascii.eqb a c then 1 else 0) + count c rest)%nat
  end.

Definition depth (x : string) : nat := count "/" x.

(** The sort key [(x.count("/"), x)] compared as Python compares tuples. *)
Definition route_before (y x : string) : bool :=
  Nat.ltb (depth y) (depth x)
  || (Nat.eqb (depth y) (depth x) && String.ltb y x).

(** [x.get("_count", 0)]. *)
Definition hit_count (e : entry) : Z := default 0%Z (_count e).

(** [key=..., reverse=True]: the larger count comes first. *)
Definition entry_before (y x : entry) : bool := (hit_count x <? hit_count y)%Z.

(** [sorted(cache_data.keys(), key=lambda x: (x.count("/"), x))]. *)
Definition sorted_routes (cache_data : gmap string (list entry)) : list string :=
  sorted route_before (map_to_list cache_data).*1.

(** [sorted(cache_data[route], key=lambda x: x.get("_count", 0),
    reverse=True)]. *)
Definition sorted_entries (cache_data : gmap string (list entry))
    (route : string) : list entry :=
  sorted entry_before (default [] (cache_data !! route)).

(** The guard at the head of the inner loop body: an entry bound to a
    plugin is skipped ([continue]) unless the plugin is installed and
    enabled, is a [UiPlugin] and has preemptive caching enabled;
    [plugin_ok] answers those checks (a check that raises counts as
    failed).  An empty plugin name is falsy. *)
Definition passes_plugin_check (plugin_ok : string -> bool) (e : entry) : bool :=
  match plugin e with
  | Some p => if String.eqb p "" then true else plugin_ok p
  | None => true
  end.

(** The closure [execute_caching]: the [(route, entry)] pairs for which a
    request is built and dispatched, in the order of the two loops.  A
    dispatch that raises is logged and the loop goes on. *)
Definition execute_caching (plugin_ok : string -> bool)
    (cache_data : gmap string (list entry)) : list (string * entry) :=
  flat_map
    (fun route =>
       map (pair route)
         (List.filter (passes_plugin_check plugin_ok)
            (sorted_entries cache_data route)))
    (sorted_routes cache_data).

(** The data left by the filter step of
    [_execute_preemptive_flask_caching]. *)
Definition cache_data (now : Q) (timeout : Z)
    (all_data : gmap string (list entry)) : gmap string (list entry) :=
  clean_all_data (cleanup (cutoff_timestamp now timeout)) all_data.

(** [Server._execute_preemptive_flask_caching]: filter, then replay on the
    worker thread (nothing is replayed [if not cache_data]). *)
Definition _execute_preemptive_flask_caching (now : Q) (timeout : Z)
    (plugin_ok : string -> bool) (all_data : gmap string (list entry))
  : list (string * entry) :=
  let cache_data := cache_data now timeout all_data in
  if decide (cache_data = ∅) then []
  else execute_caching plugin_ok cache_data.

(** When one replay comes before another: the route is shallower, or as
    deep and smaller as a string; or it is the same route and the hit count
    is not smaller. *)
Definition route_lt (r1 r2 : string) : Prop :=
  (depth r1 < depth r2)%nat
  \/ (depth r1 = depth r2 /\ String.ltb r1 r2 = true).

Definition replay_order (x y : string * entry) : Prop :=
  route_lt x.1 y.1 \/ (x.1 = y.1 /\ (hit_count y.2 <= hit_count x.2)%Z).

(** An entry is recent when it carries a timestamp newer than the cutoff,
    and targets HTTP(S) when it carries a base URL that starts with
    "http://" or "https://". *)
Definition recent (cutoff : Q) (e : entry) : Prop :=
  exists t, _timestamp e = Some t /\ (cutoff < t)%Q.

Definition targets_http (e : entry) : Prop :=
  exists u, base_url e = Some u
            /\ (String.prefix "http://" u = true
                \/ String.prefix "https://" u = true).

(** The scenario of the specification: route "/a" recorded with hit count
    5 and route "/a/b" with hit count 50, both recent and over HTTP. *)
Definition hit (c : Z) : entry :=
  Entry (Some 1000%Q) (Some "http://localhost:5000/") (Some c) None [].

Definition scenario : gmap string (list entry) :=
  <["/a/b" := [hit 50]]> (<["/a" := [hit 5]]> ∅).

(** The number of "/" among the characters of a route. *)
Definition slashes (route : string) : nat :=
  length (List.filter (fun c => Ascii.eqb c "/"%char)
                      (list_ascii_of_string route)).

(** When one replay comes before another, in terms of the recorded data:
    the route has fewer "/", or as many and is the smaller string; or it is
    the same route and the recorded hit count, 0 when none is recorded, is
    not smaller. *)
Definition replays_before (x y : string * entry) : Prop :=
  (slashes x.1 < slashes y.1)%nat
  \/ (slashes x.1 = slashes y.1 /\ String.compare x.1 y.1 = Lt)
  \/ (x.1 = y.1 /\ (default 0 (_count y.2) <= default 0 (_count x.2))%Z).

(** The specification's "path-segment depth" of a route: the number of its
    path segments, a segment being a non-empty run of characters other than
    "/".  [inside] says whether the character before was part of a
    segment. *)
Fixpoint segments_from (inside : bool) (route : string) : nat :=
  match route with
  | EmptyString => 0%nat
  | String c rest =>
      if Ascii.eqb c "/"%char then segments_from false rest
      else ((if inside then 0 else 1) + segments_from true rest)%nat
  end.

Definition path_segment_depth (route : string) : nat :=
  segments_from false route.

(** The order of the routes as the specification words it: a route is
    replayed before every route of greater path-segment depth. *)
Definition shallowest_first : Prop :=
  forall (plugin_ok : string -> bool) (data : gmap string (list entry)),
    StronglySorted
      (fun x y => (path_segment_depth x.1 <= path_segment_depth y.1)%nat)
      (execute_caching plugin_ok data).

(** An entry recorded without hit count. *)
Definition uncounted : entry :=
  Entry (Some 1000%Q) (Some "http://localhost:5000/") None None [].

(** "/b" and "/a/a": the deeper route is the smaller string. *)
Definition deeper_is_smaller : gmap string (list entry) :=
  <["/a/a" := [hit 1]]> (<["/b" := [hit 1]]> ∅).

(** One route recorded four times. *)
Definition one_route : gmap string (list entry) :=
  <["/a" := [hit 5; uncounted; hit 50; hit 7]]> ∅.

(** "/b/" and "/a/c": one segment with a trailing slash, and two
    segments. *)
Definition trailing_slash : gmap string (list entry) :=
  <["/a/c" := [hit 1]]> (<["/b/" := [hit 1]]> ∅).

End PreemptiveCache.

(** * Registering and removing lifecycle callbacks *)

Module Callbacks.

(** How often [event] is named in the events given to [add_callback] or
    [remove_callback]. *)
Definition mentions (event : string) (events : list string) : nat :=
  length (List.filter (String.eqb event) events).

End Callbacks.

(** * The request handler of the intermediary server *)

Module Handler.

(** What [do_GET] does to the response. *)
Inductive reply : Type :=
| SendResponse (code : Z)
| SendHeader (name value : string)
| EndHeaders
| Write (data : string).

(** The payload of a rule as written in the rule table: a path below the
    static folder, given by its components, or the bytes themselves. *)
Inductive payload : Type :=
| StaticFile (components : list string)
| Bytes (data : string).

(** A rule as written: [(path, data)] or [(path, data, content_type)];
    the two-element form has no content type.  Every rule so typed has
    length 2 or 3, as the filter in front of [process] asks. *)
Definition raw_rule : Type := string * payload * option string.

(** A processed rule [(path, data, content_type)]. *)
Definition rule : Type := string * string * option string.

(** The closure [process]; [contents] reads a static file and gives the
    empty string when there is none. *)
Definition process (contents : list string -> string) (r : raw_rule) : rule :=
  let '(path, data, content_type) := r in
  (path,
   match data with
   | StaticFile components => contents components
   | Bytes data => data
   end,
   content_type).

(** The rule table of [_start_intermediary_server]; [gif] is the decoded
    one-pixel image. *)
Definition raw_rules (gif : string) : list raw_rule :=
  [ ("/", StaticFile ["intermediary.html"], Some "text/html");
    ("/favicon.ico", StaticFile ["img"; "tentacle-20x20.png"], Some "image/png");
    ("/intermediary.gif", Bytes gif, Some "image/gif") ].

Definition rules (contents : list string -> string) (gif : string) : list rule :=
  map (process contents) (raw_rules gif).

(** [request_path[0 : request_path.find("?")]] when "?" occurs in the
    path, the path itself otherwise: the part before the first "?". *)
Fixpoint before_query (path : string) : string :=
  match path with
  | EmptyString => EmptyString
  | String c rest =>
      if Ascii.eqb c "?" then EmptyString else String c (before_query rest)
  end.

(** The body of the loop for a rule whose path matches. *)
Definition found (r : rule) : list reply :=
  let '(_, data, content_type) := r in
  [ SendResponse 200 ]
  ++ match content_type with
     | Some t => if String.eqb t "" then [] else [ SendHeader "Content-Type" t ]
     | None => []
     end
  ++ [ EndHeaders; Write data ].

(** The [else] of the loop. *)
Definition not_found : list reply :=
  [ SendResponse 404; Write "Not found" ].

(** [for rule in self.rules: ... break / else: ...]. *)
Fixpoint serve (rules : list rule) (request_path : string) : list reply :=
  match rules with
  | [] => not_found
  | r :: rest =>
      if String.eqb request_path r.1.1 then found r
      else serve rest request_path
  end.

(** [IntermediaryServerHandler.do_GET] for the request path [path]. *)
Definition do_GET (rules : list rule) (path : string) : list reply :=
  serve rules (before_query path).

(** The status code a reply starts with. *)
Definition status (t : list reply) : option Z :=
  match t with
  | SendResponse code :: _ => Some code
  | _ => None
  end.

End Handler.

(** * Host, port and address family *)

Module Network.

(** [":" in host]. *)
Fixpoint has_colon (host : string) : bool :=
  match host with
  | EmptyString => false
  | String c rest => Ascii.eqb c ":" || has_colon rest
  end.

(** The attributes of [Server] the network setup works on. *)
Record server : Type := Server {
  _host : option string;
  _port : option Z;
  _v6_only : bool
}.

(** What the settings and the platform answer: [server.host],
    [server.port] ([getInt] gives [None] for a missing value) and
    [octoprint.util.net.HAS_V6]. *)
Record env : Type := Env {
  settings_host : option string;
  settings_port : option Z;
  HAS_V6 : bool
}.

Definition RuntimeError (msg : string) : exn := Exception msg.

(** [Server._ensure_host]. *)
Definition _ensure_host (e : env) (self : server) : outcome server :=
  let self :=
    match _host self with
    | None =>
        let host :=
          match settings_host e with
          | None => if HAS_V6 e then "::" else "0.0.0.0"
          | Some host => host
          end in
        Server (Some host) (_port self) (_v6_only self)
    | Some _ => self
    end in
  match _host self with
  | Some host =>
      if has_colon host && negb (HAS_V6 e)
      then Raised (RuntimeError "IPv6 host address configured but system doesn't support IPv6")
      else Returned self
  | None => Raised TypeError
  end.

(** [Server._ensure_port]. *)
Definition _ensure_port (e : env) (self : server) : server :=
  match _port self with
  | None =>
      match settings_port e with
      | None => Server (_host self) (Some 5000%Z) (_v6_only self)
      | Some port => Server (_host self) (Some port) (_v6_only self)
      end
  | Some _ => self
  end.

(** The network setup at the head of [run]: the check of [_v6_only], then
    [_ensure_host] and [_ensure_port]. *)
Definition network_setup (e : env) (self : server) : outcome server :=
  if _v6_only self && negb (HAS_V6 e)
  then Raised (RuntimeError "IPv6 only mode configured but system doesn't support IPv6")
  else
    match _ensure_host e self with
    | Raised exc => Raised exc
    | Returned self => Returned (_ensure_port e self)
    end.

(** The three server classes of [_start_intermediary_server]. *)
Inductive server_class : Type :=
| HTTPServerV4
| HTTPServerV6SingleStack
| HTTPServerV6DualStack.

(** The choice of [ServerClass]. *)
Definition ServerClass (host : string) (v6_only : bool) : server_class :=
  if has_colon host then
    if String.eqb host "::" && negb v6_only then HTTPServerV6DualStack
    else HTTPServerV6SingleStack
  else HTTPServerV4.

(** The [address] that [_initialize_and_bind_server] hands to
    [server.listen]; [None] makes tornado listen on IPv4 and IPv6. *)
Definition listen_address (host : string) (v6_only : bool) : option string :=
  if String.eqb host "::" && negb v6_only then None else Some host.

(** The addresses announced by [on_after_startup] and, in the same
    words, by [_start_intermediary_server]. *)
Definition announced (host : string) (v6_only : bool) : list string :=
  if String.eqb host "::" then
    if v6_only then ["[::]"] else ["0.0.0.0"; "[::]"]
  else [ if has_colon host then ("[" ++ host ++ "]")%string else host ].

End Network.

(** * Template filters and template folders *)

Module Jinja.

Definition backslash : ascii := "092"%char.
Definition single_quote : ascii := "039"%char.
Definition double_quote : ascii := "034"%char.

(** [regex.sub(replacement, text)] for the pattern "a quote that does not
    follow a backslash" and the replacement "backslash, quote": the text is
    scanned once, the look-behind sees the character of the text in front
    of the quote.  [after_backslash] tells whether that character is a
    backslash. *)
Fixpoint escape (quote : ascii) (after_backslash : bool) (text : string)
  : string :=
  match text with
  | EmptyString => EmptyString
  | String c rest =>
      if Ascii.eqb c quote && negb after_backslash
      then String backslash (String c (escape quote (Ascii.eqb c backslash) rest))
      else String c (escape quote (Ascii.eqb c backslash) rest)
  end.

(** The filters [escape_single_quote] ([esq]) and [escape_double_quote]
    ([edq]). *)
Definition escape_single_quote (text : string) : string :=
  escape single_quote false text.

Definition escape_double_quote (text : string) : string :=
  escape double_quote false text.

(** No quote of the text is left for the pattern to match: each one
    follows a backslash. *)
Fixpoint escaped (quote : ascii) (after_backslash : bool) (text : string)
  : bool :=
  match text with
  | EmptyString => true
  | String c rest =>
      (negb (Ascii.eqb c quote) || after_backslash)
      && escaped quote (Ascii.eqb c backslash) rest
  end.

(** [PluginFlags]. *)
Inductive plugin_flag : Type :=
| AUTOESCAPE_ON
| AUTOESCAPE_OFF
| OTHER_FLAG (name : string).

Definition is_autoescape_on (f : plugin_flag) : bool :=
  match f with AUTOESCAPE_ON => true | _ => false end.
Definition is_autoescape_off (f : plugin_flag) : bool :=
  match f with AUTOESCAPE_OFF => true | _ => false end.

(** A [TemplatePlugin] as far as the registration asks it. *)
Record template_plugin : Type := TemplatePlugin {
  get_template_folder : option string;
  template_folder_key : string;
  flags : list plugin_flag;
  bundled : bool;
  is_template_autoescaped : bool
}.

(** The loaders put into [prefix_loader.mapping]. *)
Inductive loader : Type :=
| FilteredFileSystemLoader (folders : list string)
| PostProcessWrapperLoader (inner : loader).

(** The loader built for a plugin with template folder [folder]. *)
Definition loader_for (plugin : template_plugin) (folder : string) : loader :=
  let loader := FilteredFileSystemLoader [folder] in
  if negb (existsb is_autoescape_on (flags plugin))
     && (existsb is_autoescape_off (flags plugin)
         || (negb (bundled plugin) && negb (is_template_autoescaped plugin)))
  then PostProcessWrapperLoader loader
  else loader.

(** [Server._register_additional_template_plugin] on
    [app.jinja_env.prefix_loader.mapping]. *)
Definition _register_additional_template_plugin (plugin : template_plugin)
    (mapping : gmap string loader) : gmap string loader :=
  match get_template_folder plugin with
  | Some folder =>
      match mapping !! template_folder_key plugin with
      | None => <[template_folder_key plugin := loader_for plugin folder]> mapping
      | Some _ => mapping
      end
  | None => mapping
  end.

(** [Server._unregister_additional_template_plugin]. *)
Definition _unregister_additional_template_plugin (plugin : template_plugin)
    (mapping : gmap string loader) : gmap string loader :=
  match get_template_folder plugin with
  | Some _ =>
      match mapping !! template_folder_key plugin with
      | Some _ => delete (template_folder_key plugin) mapping
      | None => mapping
      end
  | None => mapping
  end.

End Jinja.

(** * Loading the user of a request *)

Module Access.

(** A user object as far as [load_user] looks at it. *)
Record user : Type := User {
  get_id : string;
  is_active : bool
}.

(** The keys of the flask session that [load_user] reads, each absent or
    of the type the login code stores. *)
Record session : Type := Session {
  usersession_id : option string;
  usersession_signature : option string;
  _fresh : option bool
}.

(** A string is truthy when it is not empty. *)
Definition truthy (s : option string) : bool :=
  match s with
  | Some s => negb (String.eqb s "")
  | None => false
  end.

Section Users.
(** The user manager and the signature check, defined in
    [octoprint.access.users] and [octoprint.server.util.flask]:
    [find_user(userid)] is [find_user userid None],
    [find_user(userid, session, fresh)] is
    [find_user userid (Some (session, fresh))]. *)
Variable api_user_factory : user.
Variable find_user : string -> option (string * bool) -> option user.
Variable validate_session_signature : string -> string -> string -> bool.

(** [load_user(id)]. *)
Definition load_user (s : session) (id : option string) : option user :=
  match id with
  | None => None
  | Some id =>
      if String.eqb id "_api" then Some api_user_factory
      else
        let sessionid := usersession_id s in
        let sessionsig := default "" (usersession_signature s) in
        let user :=
          if truthy sessionid
          then find_user id (Some (default "" sessionid, default false (_fresh s)))
          else find_user id None in
        match user with
        | Some user =>
            if is_active user
               && (negb (truthy sessionid)
                   || validate_session_signature sessionsig id
                        (default "" sessionid))
            then Some user
            else None
        | None => None
        end
  end.

(** The helpers of [octoprint.server.util] and the two settings
    [load_user_from_request] asks; [request] is the flask request. *)
Context {request : Type}.
Variable get_api_key : request -> option string.
Variable get_user_for_apikey : string -> option user.
Variable get_user_for_authorization_header : request -> option user.
Variable get_user_for_remote_user_header : request -> option user.

(** [load_user_from_request(request)]. *)
Definition load_user_from_request
    (trustBasicAuthentication trustRemoteUser : bool) (r : request)
  : option user :=
  let by_apikey :=
    if truthy (get_api_key r)
    then get_user_for_apikey (default "" (get_api_key r))
    else None in
  match by_apikey with
  | Some user => Some user
  | None =>
      let by_header :=
        if trustBasicAuthentication
        then get_user_for_authorization_header r else None in
      match by_header with
      | Some user => Some user
      | None =>
          if trustRemoteUser then get_user_for_remote_user_header r else None
      end
  end.

End Users.

(** A user manager that knows every id as an active user, and a signature
    check that accepts the signature "sig". *)
Definition everyone (id : string) (_ : option (string * bool)) : option user :=
  Some (User id true).

Definition accepts_sig (sig _ _ : string) : bool := String.eqb sig "sig".

End Access.

(** * Refreshing the list of serial ports *)

Module Serial.

Inductive action : Type :=
| Log (r : log_record)
| Fire (event : string) (ports : list string).

(** [events.Events.CONNECTIONS_AUTOREFRESHED]. *)
Definition CONNECTIONS_AUTOREFRESHED : string := "ConnectionsAutorefreshed".

(** The closure [refresh_serial_list] of [_start_serial_autorefresh]:
    [last_ports] is the variable it shares with its earlier runs ([None]
    before the first one), [serialList] the ports the system reports. *)
Definition refresh_serial_list (serialList : list string)
    (last_ports : option (list string)) : option (list string) * list action :=
  let new_ports := sorted String.ltb serialList in
  (Some new_ports,
   if decide (Some new_ports = last_ports) then []
   else [ Log (info "Serial port list was updated, refreshing the port list in the frontend");
          Fire CONNECTIONS_AUTOREFRESHED new_ports ]).

(** Several runs of the timer in sequence. *)
Fixpoint refreshes (reports : list (list string))
    (last_ports : option (list string)) : option (list string) * list action :=
  match reports with
  | [] => (last_ports, [])
  | serialList :: rest =>
      let '(last_ports, t1) := refresh_serial_list serialList last_ports in
      let '(last_ports, t2) := refreshes rest last_ports in
      (last_ports, t1 ++ t2)
  end.

End Serial.

(** * Instances made by plugin factories *)

Module Factories.

(** The record of [logger.exception] for a factory that raised. *)
Definition creation_error (name : string) : log_record :=
  LogRecord ERROR ("Error while creating printer instance from factory " ++ name)
            (Some name).

Section Printer.
Context {P : Type}.

(** [Server._setup_printer]: [factories] gives, in the order of
    [get_hooks("octoprint.printer.factory").items()], the name of each hook
    and what calling it does; [Printer] is the default instance.  The
    result is the printer, the hooks that were called, and the log. *)
Fixpoint _setup_printer (Printer : P)
    (factories : list (string * outcome (option P)))
  : P * list string * list log_record :=
  match factories with
  | [] => (Printer, [], [])
  | (name, factory) :: rest =>
      match factory with
      | Returned (Some printer) =>
          (printer, [name],
           [debug ("Created printer instance from factory " ++ name)])
      | Returned None =>
          let '(printer, called, log) := _setup_printer Printer rest in
          (printer, name :: called, log)
      | Raised _ =>
          let '(printer, called, log) := _setup_printer Printer rest in
          (printer, name :: called, creation_error name :: log)
      end
  end.

(** A factory that gives no instance: it returns [None] or raises. *)
Definition gives_nothing (f : string * outcome (option P)) : bool :=
  match f.2 with
  | Returned (Some _) => false
  | _ => true
  end.

End Printer.

End Factories.

(** * Permissions contributed by plugins *)

Module PluginPermissions.

(** [key_whitelist = re.compile(r"[A-Za-z0-9_]*")]. *)
Definition key_whitelist : option Regex.re := Regex.compile "[A-Za-z0-9_]*".

(** [key_whitelist.match(key)] as a condition, for a key that is a string:
    [re.match] looks for a match at the start of the string and does not
    ask that it reach the end. *)
Definition key_whitelist_match (key : string) : bool :=
  match key_whitelist with
  | Some r => Regex.prefix_match r key
  | None => false
  end.

(** [str.upper()] on the ASCII letters. *)
Definition upper_char (c : ascii) : ascii :=
  let n := nat_of_ascii c in
  if ((97 <=? n) && (n <=? 122))%nat then ascii_of_nat (n - 32) else c.

Fixpoint upper (s : string) : string :=
  match s with
  | EmptyString => EmptyString
  | String c rest => String (upper_char c) (upper rest)
  end.

(** A permission definition dict with its optional keys read through
    [definition.get(key, default)]. *)
Record definition : Type := Definition_ {
  d_key : string;
  d_name : string;
  d_permissions : list string;
  d_roles : list string;
  d_description : string;
  d_dangerous : bool;
  d_default_groups : list string
}.

(** An entry of what a hook provides: not a dict, a dict without "key" or
    "name", a dict whose "key" is not a string, or a definition. *)
Inductive entry : Type :=
| NotADict
| Incomplete
| KeyNotAString
| Complete (d : definition).

(** What the plugin manager knows of the plugin of a hook. *)
Record plugin_info : Type := PluginInfo {
  pi_key : string;
  pi_name : string
}.

(** The closures [permission_key], [permission_name] and
    [permission_role]. *)
Definition permission_key (plugin : string) (d : definition) : string :=
  "PLUGIN_" ++ upper plugin ++ "_" ++ upper (d_key d).

Definition permission_name (plugin : string) (d : definition) : string :=
  plugin ++ ": " ++ d_name d.

Definition permission_role (plugin role : string) : string :=
  "plugin_" ++ plugin ++ "_" ++ role.

(** What is written to the log. *)
Inductive event : Type :=
| Added (plugin key : string)
| InvalidKey (plugin key : string)
| HookError (plugin : string)
| PassStarts (pass_number unresolved : nat)
| PassDone (pass_number left : nat)
| Unresolvable (plugin : string) (d : definition).

Section Registry.
(** The class [Permissions] of [octoprint.access.permissions]: its state
    [R], [Permissions.find(key)] and [setattr(Permissions, key,
    permission)]; [perm] are the permission objects it hands out. *)
Context {R perm : Type}.
Variable find : R -> string -> option perm.

(** The [PluginOctoPrintPermission] built for a definition. *)
Record plugin_permission : Type := PluginOctoPrintPermission {
  pp_name : string;
  pp_description : string;
  pp_needs : list (string + perm);
  pp_plugin : string;
  pp_dangerous : bool;
  pp_default_groups : list string
}.

Variable set : R -> string -> plugin_permission -> R.

(** The [for key in definition.get("permissions", [])] loop: [None] when
    one of the keys is not found. *)
Fixpoint find_all (reg : R) (keys : list string) : option (list perm) :=
  match keys with
  | [] => Some []
  | key :: rest =>
      match find reg key with
      | None => None
      | Some permission =>
          match find_all reg rest with
          | None => None
          | Some permissions => Some (permission :: permissions)
          end
      end
  end.

(** The closure [process_regular_permission]. *)
Definition process_regular_permission (reg : R) (info : plugin_info)
    (d : definition) : R * bool * list event :=
  match find_all reg (d_permissions d) with
  | None => (reg, false, [])
  | Some permissions =>
      let roles_and_permissions :=
        map (fun role => inl (permission_role (pi_key info) role)) (d_roles d)
        ++ map inr permissions in
      let key := permission_key (pi_key info) d in
      let permission :=
        PluginOctoPrintPermission (permission_name (pi_name info) d)
          (d_description d) roles_and_permissions (pi_key info)
          (d_dangerous d) (d_default_groups d) in
      (set reg key permission, true, [Added (pi_key info) key])
  end.

(** The state of the first loop: the registry, the postponed
    definitions, the log. *)
Definition acc : Type := R * list (plugin_info * definition) * list event.

(** The body of [for p in additional_permissions].  [key_whitelist.match]
    raises [TypeError] on a key that is not a string; the loop has no [try]
    of its own. *)
Definition add_permission (name : string) (info : plugin_info) (a : acc)
    (p : entry) : acc * outcome unit :=
  let '(reg, postponed, log) := a in
  match p with
  | NotADict => (a, Returned tt)
  | Incomplete => (a, Returned tt)
  | KeyNotAString => (a, Raised TypeError)
  | Complete d =>
      if negb (key_whitelist_match (d_key d)) then
        ((reg, postponed, log ++ [InvalidKey name (d_key d)]), Returned tt)
      else
        let '(reg, ok, l) := process_regular_permission reg info d in
        ((reg, if ok then postponed else postponed ++ [(info, d)], log ++ l),
         Returned tt)
  end.

(** [for p in additional_permissions]: an exception leaves the loop, and
    what was done until then stays done. *)
Fixpoint add_permissions (name : string) (info : plugin_info) (a : acc)
    (entries : list entry) : acc * outcome unit :=
  match entries with
  | [] => (a, Returned tt)
  | p :: rest =>
      match add_permission name info a p with
      | (a', Returned _) => add_permissions name info a' rest
      | (a', Raised e) => (a', Raised e)
      end
  end.

(** What a hook of "octoprint.access.permissions" is: a tuple or list, a
    callable (with what calling it gives: it raises, or returns a list, or
    returns something else), or anything else. *)
Inductive factory : Type :=
| Listed (entries : list entry)
| CallableFactory (result : outcome (option (list entry)))
| NoFactory.

(** The body of [for name, factory in hooks.items()].  Its [try] spans the
    whole body, the loop over the definitions included: whatever raises in
    there is logged once, and the rest of the hook is skipped. *)
Definition hook_step (get_plugin_info : string -> plugin_info) (a : acc)
    (nf : string * factory) : acc :=
  let '(name, factory) := nf in
  let additional_permissions :=
    match factory with
    | Listed entries => Some entries
    | CallableFactory (Returned (Some entries)) => Some entries
    | _ => None
    end in
  match additional_permissions with
  | None => (a.1.1, a.1.2, a.2 ++ [HookError name])
  | Some entries =>
      match add_permissions name (get_plugin_info name) a entries with
      | (a', Returned _) => a'
      | (a', Raised _) => (a'.1.1, a'.1.2, a'.2 ++ [HookError name])
      end
  end.

(** One pass over the postponed definitions: the registry after it, the
    definitions still postponed, the log. *)
Fixpoint resolution_pass (reg : R) (postponed : list (plugin_info * definition))
  : acc :=
  match postponed with
  | [] => (reg, [], [])
  | (info, d) :: rest =>
      let '(reg, ok, l) := process_regular_permission reg info d in
      let '(reg, still_postponed, log) := resolution_pass reg rest in
      (reg, if ok then still_postponed else (info, d) :: still_postponed,
       l ++ log)
  end.

(** The [while len(postponed)] loop of the final resolution, run for at
    most [fuel] passes; [None] when the passes do not suffice. *)
Fixpoint resolution (fuel : nat) (pass_number : nat) (reg : R)
    (postponed : list (plugin_info * definition)) : option acc :=
  match postponed with
  | [] => Some (reg, [], [])
  | _ :: _ =>
      match fuel with
      | O => None
      | S fuel =>
          let start_length := length postponed in
          let '(reg, still_postponed, log) := resolution_pass reg postponed in
          let log :=
            [PassStarts pass_number start_length] ++ log
            ++ [PassDone pass_number (length still_postponed)] in
          if Nat.eqb (length still_postponed) start_length then
            Some (reg, still_postponed,
                  log ++ map (fun x => Unresolvable (pi_key x.1) x.2)
                             still_postponed)
          else
            match resolution fuel (S pass_number) reg still_postponed with
            | None => None
            | Some (reg, unresolved, log') => Some (reg, unresolved, log ++ log')
            end
      end
  end.

(** [Server._setup_plugin_permissions]: the hooks, then the resolution
    passes. *)
Definition _setup_plugin_permissions (fuel : nat)
    (get_plugin_info : string -> plugin_info) (reg : R)
    (hooks : list (string * factory)) : option acc :=
  let '(reg, postponed, log) :=
    fold_left (hook_step get_plugin_info) hooks (reg, [], []) in
  match resolution fuel 1 reg postponed with
  | None => None
  | Some (reg, unresolved, log') => Some (reg, unresolved, log ++ log')
  end.

Definition is_invalid_key (e : event) : bool :=
  match e with InvalidKey _ _ => true | _ => false end.

End Registry.

(** A registry that is the list of the keys set so far. *)
Definition find_key (reg : list string) (key : string) : option unit :=
  if existsb (String.eqb key) reg then Some tt else None.

Definition set_key (reg : list string) (key : string)
    (_ : @plugin_permission unit) : list string :=
  key :: reg.

End PluginPermissions.

(** * Blueprints of plugins *)

Module Blueprints.

(** The request handlers put on a blueprint. *)
Inductive request_handler : Type :=
| corsRequestHandler
| corsResponseHandler
| csrfRequestHandler
| requireLoginRequestHandler.

(** A flask blueprint as far as it is set up here. *)
Record blueprint : Type := Blueprint {
  bp_name : string;
  before_request : list request_handler;
  after_request : list request_handler
}.

(** A [BlueprintPlugin] as far as it is asked; [get_blueprint] gives the
    name of the blueprint, or [None]. *)
Record blueprint_plugin : Type := BlueprintPlugin {
  _identifier : string;
  get_blueprint : option string;
  is_blueprint_csrf_protected : bool;
  is_blueprint_protected : bool;
  get_blueprint_api_prefixes : list string
}.

(** [Server._prepare_blueprint_plugin]: [None] when the plugin has no
    blueprint, else the blueprint with its handlers and the URL prefix;
    and the log. *)
Definition _prepare_blueprint_plugin (plugin : blueprint_plugin)
  : option (blueprint * string) * list log_record :=
  let name := _identifier plugin in
  match get_blueprint plugin with
  | None => (None, [])
  | Some bp =>
      (Some
         (Blueprint bp
            ([corsRequestHandler]
             ++ (if is_blueprint_csrf_protected plugin
                 then [csrfRequestHandler] else [])
             ++ (if is_blueprint_protected plugin
                 then [requireLoginRequestHandler] else []))
            [corsResponseHandler],
          ("/plugin/" ++ name)%string),
       [ if is_blueprint_csrf_protected plugin
         then debug ("CSRF Protection for Blueprint of plugin " ++ name
                     ++ " is enabled")
         else warning ("CSRF Protection for Blueprint of plugin " ++ name
                       ++ " is DISABLED") ])
  end.

(** [Server._prepare_blueprint_plugins]: the blueprints, the API
    endpoints, and the plugin and prefix each registrator is bound to; and
    the log.  Unpacking the [None] of a plugin without blueprint raises. *)
Fixpoint _prepare_blueprint_plugins (plugins : list blueprint_plugin)
  : outcome (list blueprint * list string * list (string * string))
    * list log_record :=
  match plugins with
  | [] => (Returned ([], [], []), [])
  | plugin :: rest =>
      match _prepare_blueprint_plugin plugin with
      | (None, log) => (Raised TypeError, log)
      | (Some (blueprint, prefix), log) =>
          match _prepare_blueprint_plugins rest with
          | (Raised e, log') => (Raised e, log ++ log')
          | (Returned (blueprints, api_endpoints, registrators), log') =>
              (Returned
                 (blueprint :: blueprints,
                  map (String.append prefix) (get_blueprint_api_prefixes plugin)
                  ++ api_endpoints,
                  (_identifier plugin, prefix) :: registrators),
               log ++ log')
          end
      end
  end.

(** The position of a handler in a chain. *)
Fixpoint index_of (h : request_handler) (l : list request_handler)
  : option nat :=
  match l with
  | [] => None
  | x :: rest =>
      match h, x with
      | corsRequestHandler, corsRequestHandler
      | corsResponseHandler, corsResponseHandler
      | csrfRequestHandler, csrfRequestHandler
      | requireLoginRequestHandler, requireLoginRequestHandler => Some 0%nat
      | _, _ => S <$> index_of h rest
      end
  end.

End Blueprints.

(** * The request of a replayed cache entry *)

Module ReplayRequest.

Section Kwargs.
Context {V : Type}.

(** [k.startswith("_")]. *)
Definition private (k : string) : bool := String.prefix "_" k.

(** The keyword arguments handed to [EnvironBuilder] for an entry
    [kwargs]: the comprehension that drops the keys starting with "_" and
    the key "plugin", then [kwargs.update(additional_request_data)], where
    [additional_request_data] is the dict recorded under
    "_additional_request_data" ([None] when there is none). *)
Definition request_kwargs (kwargs : gmap string V)
    (additional_request_data : option (gmap string V)) : gmap string V :=
  default ∅ additional_request_data
  ∪ filter (fun kv => negb (private kv.1) && negb (String.eqb kv.1 "plugin"))
           kwargs.

End Kwargs.

End ReplayRequest.

(** * Properties *)

(** ** LifecycleManager *)

Module LifecycleProps.
Import Lifecycle.

Section Frame.
Context {W plugin : Type}.
Implicit Types (s : st W plugin) (cbs : list (callback W plugin)).

Lemma dd_getitem_default (d : gmap string (list (callback W plugin))) k :
  (dd_getitem d k).1 = default [] (d !! k).
Proof. unfold dd_getitem. destruct (d !! k); reflexivity. Qed.

Lemma invoke_frame cb name (p : plugin) s :
  logger (invoke cb name p s).1 = logger s
  /\ calls (invoke cb name p s).1 = (calls s ++ [CallAdded (cb_id cb)])%list
  /\ (invoke cb name p s).2 = (cb_call cb name p (world s)).2.
Proof.
  unfold invoke. destruct (cb_call cb name p (world s)) as [w' out].
  simpl. auto.
Qed.

End Frame.

(** The constructor leaves every attribute of the plugin manager as it
    found it: no wrapper is installed. *)
Lemma init_loop_keeps_plugin_manager {W plugin : Type}
    (pm : gmap string (attr W plugin)) events :
  (init_loop pm events).1 = pm.
Proof.
  induction events as [|event rest IH]; simpl; [reflexivity|].
  destruct (wrap_plugin_event pm event _); [exact IH|reflexivity].
Qed.

Lemma init_keeps_plugin_manager {W plugin : Type}
    (pm : gmap string (attr W plugin)) (w : W) :
  (init pm w).1.1 = pm.
Proof.
  unfold init.
  pose proof (init_loop_keeps_plugin_manager pm lifecycle_events) as H.
  destruct (init_loop pm lifecycle_events) as [pm' out]. simpl in *. exact H.
Qed.

(** The wrapper built by [wrap_plugin_event] runs the pre-existing handler
    and then the dispatch to the added callbacks. *)
Lemma wrapped_runs_upstream_first :
  (let '(s, out) :=
     wrapped (upstream_noting "enabled")
       (Callable (on_plugin_event_factory "enabled")) "pluginX" tt
       (add_callback (EventStr "enabled") B fresh) in
   (calls s, world s, out))
  = ([CallUpstream "enabled"; CallAdded 2], ["upstream"; "B"], Returned tt).
Proof. vm_compute. reflexivity. Qed.

(** C2 (the code at the failing input): after
    [LifecycleManager(plugin_manager_0)] and [add_callback("enabled", B)], a
    signal of "enabled" runs the pre-existing handler only; [B] is not
    entered at all. *)
Theorem signal_does_not_reach_added_callbacks :
  calls signal_enabled_after_init.1 = [CallUpstream "enabled"]
  /\ world signal_enabled_after_init.1 = ["upstream"]
  /\ signal_enabled_after_init.2 = Returned tt
  /\ map cb_id (registered signal_enabled_after_init.1 "enabled") = [2%nat].
Proof. repeat split; vm_compute; reflexivity. Qed.

End LifecycleProps.

(** ** The dispatch *)

Module DispatchProps.
Import Lifecycle Dispatch.

Section Walk.
Context {W plugin : Type}.
Variable requests : nat -> string -> plugin -> W -> list (request W plugin).
Variables (event name : string) (p : plugin).
Implicit Types (s : st W plugin) (cb : callback W plugin).

(** A callable that asks nothing of the manager changes the world and the
    ghost record, and nothing else. *)
Lemma enter_quiet cb s :
  (forall w, requests (cb_id cb) name p w = []) ->
  enter requests cb name p s
  = (St (plugin_lifecycle_callbacks s) (logger s)
        (cb_call cb name p (world s)).1 (calls s ++ [CallAdded (cb_id cb)]),
     (cb_call cb name p (world s)).2).
Proof.
  intros Hq. unfold enter, invoke. rewrite Hq.
  destruct (cb_call cb name p (world s)) as [w' out]. reflexivity.
Qed.

Lemma lookup_middle (done pre : list (callback W plugin)) cb post :
  (done ++ cb :: post) !! length done = Some cb.
Proof. now rewrite list_lookup_middle. Qed.

(** Callables that ask nothing and return are passed one by one. *)
Lemma walk_through pre : forall done rest s fuel w1,
  registered s event = done ++ pre ++ rest ->
  quiet requests pre name p ->
  returns_through pre name p (world s) = Some w1 ->
  walk requests (length pre + fuel) event (length done) name p s
  = walk requests fuel event (length done + length pre) name p
      (St (plugin_lifecycle_callbacks s) (logger s) w1 (calls s ++ ids pre)).
Proof.
  induction pre as [|c pre IH]; intros done rest s fuel w1 Hreg Hq Hret.
  - cbn in *. injection Hret as <-. rewrite Nat.add_0_r, app_nil_r.
    destruct s; reflexivity.
  - cbn [length Nat.add walk]. rewrite Hreg.
    change (c :: pre ++ rest) with ((c :: pre) ++ rest).
    cbn [app]. rewrite lookup_middle by exact [].
    rewrite enter_quiet by (intros w; apply Hq; now left).
    cbn [returns_through] in Hret.
    destruct (cb_call c name p (world s)) as [w' [[]|e]] eqn:Hc;
      [|discriminate Hret].
    cbn [fst snd].
    specialize (IH (done ++ [c]) rest
      (St (plugin_lifecycle_callbacks s) (logger s) w'
          (calls s ++ [CallAdded (cb_id c)])) fuel w1).
    rewrite length_app in IH. cbn [length] in IH.
    replace (length done + 1)%nat with (S (length done)) in IH by lia.
    rewrite IH.
    + cbn [plugin_lifecycle_callbacks logger calls]. unfold ids. cbn [map].
      rewrite <- app_assoc. cbn [app].
      replace (S (length done) + length pre)%nat
        with (length done + S (length pre))%nat by lia.
      reflexivity.
    + unfold registered in *. cbn [plugin_lifecycle_callbacks].
      rewrite Hreg, <- app_assoc. reflexivity.
    + intros cb w Hin. apply Hq. now right.
    + exact Hret.
Qed.

Lemma dispatch_walk fuel s :
  exists d,
    dispatch requests fuel event name p s
    = walk requests fuel event 0 name p (set_callbacks s d)
    /\ (forall ev, default [] (d !! ev) = registered s ev).
Proof.
  unfold dispatch, dd_getitem, registered.
  destruct (plugin_lifecycle_callbacks s !! event) as [l|] eqn:Hl.
  - exists (plugin_lifecycle_callbacks s). auto.
  - exists (<[event := []]> (plugin_lifecycle_callbacks s)). split; [reflexivity|].
    intros ev. destruct (decide (ev = event)) as [->|Hne].
    + now rewrite lookup_insert_eq, Hl.
    + now rewrite lookup_insert_ne by congruence.
Qed.

Lemma dispatch_raises fuel s pre cb post w1 w2 e :
  registered s event = pre ++ cb :: post ->
  quiet requests (pre ++ [cb]) name p ->
  returns_through pre name p (world s) = Some w1 ->
  cb_call cb name p w1 = (w2, Raised e) ->
  (length pre < fuel)%nat ->
  exists s',
    dispatch requests fuel event name p s = Some (s', Raised e)
    /\ world s' = w2
    /\ calls s' = (calls s ++ ids (pre ++ [cb]))%list
    /\ logger s' = logger s
    /\ forall ev, registered s' ev = registered s ev.
Proof.
  intros Hreg Hq Hret Hcb Hfuel.
  destruct (dispatch_walk fuel s) as (d & -> & Hd).
  replace fuel with (length pre + S (fuel - S (length pre)))%nat by lia.
  rewrite (walk_through pre [] (cb :: post) _ _ w1).
  - cbn [walk length Nat.add]. unfold registered at 1.
    cbn [plugin_lifecycle_callbacks set_callbacks].
    rewrite Hd, Hreg, list_lookup_middle by reflexivity.
    rewrite enter_quiet
      by (intros w; apply Hq, in_or_app; right; now left).
    cbn [world]. rewrite Hcb. cbn [fst snd].
    eexists. split; [reflexivity|]. cbn.
    split; [reflexivity|]. split.
    { unfold ids. now rewrite map_app, <- app_assoc. }
    split; [reflexivity|]. intros ev. apply Hd.
  - unfold registered. cbn. now rewrite Hd, Hreg.
  - intros c w Hin. apply Hq, in_or_app. now left.
  - exact Hret.
Qed.

Lemma dispatch_returns fuel s w' :
  quiet requests (registered s event) name p ->
  returns_through (registered s event) name p (world s) = Some w' ->
  (length (registered s event) < fuel)%nat ->
  exists s',
    dispatch requests fuel event name p s = Some (s', Returned tt)
    /\ world s' = w'
    /\ calls s' = (calls s ++ ids (registered s event))%list
    /\ logger s' = logger s
    /\ forall ev, registered s' ev = registered s ev.
Proof.
  intros Hq Hret Hfuel.
  destruct (dispatch_walk fuel s) as (d & -> & Hd).
  replace fuel
    with (length (registered s event)
          + S (fuel - S (length (registered s event))))%nat by lia.
  rewrite (walk_through (registered s event) [] [] _ _ w').
  - cbn [walk length Nat.add]. unfold registered at 2.
    cbn [plugin_lifecycle_callbacks set_callbacks].
    rewrite Hd, lookup_ge_None_2 by lia.
    eexists. split; [reflexivity|]. cbn.
    repeat split. intros ev. apply Hd.
  - unfold registered at 1. cbn. now rewrite Hd, app_nil_r.
  - exact Hq.
  - exact Hret.
Qed.

(** For callables that ask nothing of the manager the walk over the list
    is the loop over the list as it was found. *)
Lemma dispatch_quiet fuel s :
  quiet requests (registered s event) name p ->
  (length (registered s event) < fuel)%nat ->
  exists s',
    dispatch requests fuel event name p s = Some (s', (on_plugin_event event name p s).2)
    /\ world s' = world (on_plugin_event event name p s).1
    /\ calls s' = calls (on_plugin_event event name p s).1.
Proof.
  intros Hq Hfuel.
  unfold on_plugin_event.
  pose proof (LifecycleProps.dd_getitem_default (plugin_lifecycle_callbacks s) event)
    as Hdd.
  destruct (dd_getitem (plugin_lifecycle_callbacks s) event) as [cbs d0] eqn:Hget.
  cbn [fst] in Hdd. fold (registered s event) in Hdd. subst cbs.
  assert (Hcase : forall cbs w c,
    (exists w', returns_through cbs name p w = Some w'
       /\ call_each cbs name p (St d0 (logger s) w c)
          = (St d0 (logger s) w' (c ++ ids cbs), Returned tt))
    \/ (exists pre cb post w1 w2 e,
          cbs = pre ++ cb :: post
          /\ returns_through pre name p w = Some w1
          /\ cb_call cb name p w1 = (w2, Raised e)
          /\ call_each cbs name p (St d0 (logger s) w c)
             = (St d0 (logger s) w2 (c ++ ids (pre ++ [cb])), Raised e))).
  { induction cbs as [|c0 cbs IH]; intros w c.
    - left. exists w. cbn. now rewrite app_nil_r.
    - cbn [call_each returns_through]. unfold invoke. cbn [world].
      destruct (cb_call c0 name p w) as [w0 [[]|e]] eqn:Hc.
      + cbn [plugin_lifecycle_callbacks logger calls].
        destruct (IH w0 (c ++ [CallAdded (cb_id c0)]))
          as [(w' & Hr & Hce)|(pre & cb & post & w1 & w2 & e & -> & Hr & Hcb & Hce)].
        * left. exists w'. split; [exact Hr|]. rewrite Hce.
          unfold ids. cbn [map]. now rewrite <- app_assoc.
        * right. exists (c0 :: pre), cb, post, w1, w2, e.
          split; [reflexivity|]. cbn [returns_through]. rewrite Hc.
          split; [exact Hr|]. split; [exact Hcb|]. rewrite Hce.
          unfold ids. cbn [map app]. now rewrite <- app_assoc.
      + right. exists [], c0, cbs, w, w0, e. cbn.
        repeat split; first [exact Hc|reflexivity]. }
  destruct (Hcase (registered s event) (world s) (calls s))
    as [(w' & Hr & Hce)|(pre & cb & post & w1 & w2 & e & Hreg & Hr & Hcb & Hce)];
    unfold set_callbacks; rewrite Hce; cbn [fst snd world calls].
  - destruct (dispatch_returns fuel s w' Hq Hr Hfuel) as (s' & -> & Hw & Hc & _).
    exists s'. auto.
  - assert (Hq' : quiet requests (pre ++ [cb]) name p).
    { intros c w Hin. apply Hq. rewrite Hreg.
      apply in_app_or in Hin as [Hin|[<-|[]]]; apply in_or_app; [now left|].
      right. now left. }
    assert (Hlen : (length pre < fuel)%nat).
    { rewrite Hreg, length_app in Hfuel. cbn in Hfuel. lia. }
    destruct (dispatch_raises fuel s pre cb post w1 w2 e Hreg Hq' Hr Hcb Hlen)
      as (s' & -> & Hw & Hc & _).
    exists s'. auto.
Qed.

End Walk.

(** C1 (as amended): the dispatch walks the list registered for the event
    by position, as the list is at each step, and has no error handling of
    its own.  At a position beyond the end of the list it returns; a
    callback that raises ends it at once, and its exception is the outcome
    of the dispatch; after a callback that returns, the next position is
    entered.  For callbacks that register and remove nothing while they
    run: when those before some callback return and that callback raises,
    exactly the callbacks up to and including it are entered, in
    registration order, none after it, the dispatch raises its exception
    and logs nothing; when all return, all are entered in registration
    order and the dispatch returns.  A callback that removes itself makes
    the dispatch skip the callback after it; a callback registered for the
    event during the dispatch is entered by the same dispatch. *)
Theorem dispatch_stops_at_first_raise
    {W plugin : Type}
    (requests : nat -> string -> plugin -> W -> list (request W plugin))
    (s : st W plugin) (event name : string) (p : plugin) :
  (forall fuel i s0,
      registered s0 event !! i = None ->
      walk requests (S fuel) event i name p s0 = Some (s0, Returned tt))
  /\ (forall fuel i s0 cb s1 e,
        registered s0 event !! i = Some cb ->
        enter requests cb name p s0 = (s1, Raised e) ->
        walk requests (S fuel) event i name p s0 = Some (s1, Raised e))
  /\ (forall fuel i s0 cb s1,
        registered s0 event !! i = Some cb ->
        enter requests cb name p s0 = (s1, Returned tt) ->
        walk requests (S fuel) event i name p s0
        = walk requests fuel event (S i) name p s1)
  /\ (forall fuel pre cb post w1 w2 e,
        registered s event = pre ++ cb :: post ->
        quiet requests (pre ++ [cb]) name p ->
        returns_through pre name p (world s) = Some w1 ->
        cb_call cb name p w1 = (w2, Raised e) ->
        (length pre < fuel)%nat ->
        exists s',
          dispatch requests fuel event name p s = Some (s', Raised e)
          /\ world s' = w2
          /\ calls s'
             = (calls s ++ map (fun c => CallAdded (cb_id c)) (pre ++ [cb]))%list
          /\ logger s' = logger s
          /\ forall ev, registered s' ev = registered s ev)
  /\ (forall fuel w',
        quiet requests (registered s event) name p ->
        returns_through (registered s event) name p (world s) = Some w' ->
        (length (registered s event) < fuel)%nat ->
        exists s',
          dispatch requests fuel event name p s = Some (s', Returned tt)
          /\ world s' = w'
          /\ calls s'
             = (calls s ++ map (fun c => CallAdded (cb_id c))
                             (registered s event))%list
          /\ logger s' = logger s
          /\ forall ev, registered s' ev = registered s ev)
  /\ (let r := dispatch leave_and_join 4 "enabled" "pluginX" tt
                 subscribed_Leaver_A_B in
      option_map (fun r => (calls r.1, world r.1, r.2,
                            map cb_id (registered r.1 "enabled"))) r)
     = Some ([CallAdded 3; CallAdded 2], ["Leaver"; "B"], Returned tt,
             [1%nat; 2%nat])
  /\ (let r := dispatch leave_and_join 4 "enabled" "pluginX" tt
                 subscribed_Joiner in
      option_map (fun r => (calls r.1, world r.1, r.2,
                            map cb_id (registered r.1 "enabled"))) r)
     = Some ([CallAdded 4; CallAdded 2], ["Joiner"; "B"], Returned tt,
             [4%nat; 2%nat]).
Proof.
  split; [|split; [|split; [|split; [|split; [|split]]]]].
  - intros fuel i s0 H. cbn [walk]. now rewrite H.
  - intros fuel i s0 cb s1 e H He. cbn [walk]. now rewrite H, He.
  - intros fuel i s0 cb s1 H He. cbn [walk]. now rewrite H, He.
  - intros fuel pre cb post w1 w2 e.
    apply (dispatch_raises requests event name p).
  - intros fuel w'. apply (dispatch_returns requests event name p).
  - vm_compute. reflexivity.
  - vm_compute. reflexivity.
Qed.

Lemma dispatch_stops_at_first_raise_witness :
  exists s',
    dispatch no_requests 1 "enabled" "pluginX" tt subscribed_A_B
    = Some (s', Raised (Exception "boom"))
    /\ world s' = ["A"]
    /\ calls s' = ([] ++ map (fun c => CallAdded (cb_id c)) ([] ++ [A]))%list
    /\ logger s' = []
    /\ forall ev, registered s' ev = registered subscribed_A_B ev.
Proof.
  destruct (dispatch_stops_at_first_raise no_requests subscribed_A_B
              "enabled" "pluginX" tt) as (_ & _ & _ & H & _).
  apply (H 1%nat [] A [B] [] ["A"] (Exception "boom")).
  - reflexivity.
  - intros cb w _. reflexivity.
  - reflexivity.
  - reflexivity.
  - simpl. lia.
Defined.

(** C1 (counterexample): with subscribers [A; B] of "enabled" where [A]
    raises and neither asks anything of the manager, the dispatch hands the
    exception of [A] to its caller, [B] is never entered, and nothing is
    logged, with whatever fuel. *)
Lemma dispatch_error_not_isolated :
  (forall fuel,
      option_map (fun r => (r.2, calls r.1, world r.1, logger r.1))
        (dispatch no_requests (S fuel) "enabled" "pluginX" tt subscribed_A_B)
      = Some (Raised (Exception "boom"), [CallAdded 1], ["A"], []))
  /\ map cb_id (registered subscribed_A_B "enabled") = [1%nat; 2%nat]
  /\ ~ isolates_errors.
Proof.
  assert (H : forall fuel,
    option_map (fun r => (r.2, calls r.1, world r.1, logger r.1))
      (dispatch no_requests (S fuel) "enabled" "pluginX" tt subscribed_A_B)
    = Some (Raised (Exception "boom"), [CallAdded 1], ["A"], [])).
  { intros fuel. reflexivity. }
  split; [exact H|]. split; [reflexivity|].
  intros Hiso.
  destruct (Hiso (list string) unit no_requests subscribed_A_B
              "enabled" "pluginX" tt) as (fuel & s' & Hd & _).
  { intros cb w _. reflexivity. }
  destruct fuel as [|fuel]; [discriminate Hd|].
  specialize (H fuel). rewrite Hd in H. discriminate H.
Qed.

End DispatchProps.

(** ** Route table and body sizes *)

Module RoutesProps.
Import Routes.






















Lemma fold_add_body_size_raised body_methods name entries e :
  fold_left (add_body_size body_methods name) entries (Raised e) = Raised e.
Proof. induction entries; simpl; auto. Qed.


Lemma fold_body_size_hooks_raised body_methods hooks e :
  fold_left (body_size_hook_step body_methods) hooks (Raised e) = Raised e.
Proof. induction hooks as [|[n h] hooks IH]; simpl; auto. Qed.




End RoutesProps.

(** ** Shutdown handlers *)

Module ShutdownProps.
Import Shutdown.

Lemma occurrences_app f (t1 t2 : list action) :
  occurrences f (t1 ++ t2) = (occurrences f t1 + occurrences f t2)%nat.
Proof. unfold occurrences. now rewrite List.filter_app, length_app. Qed.

(** One run of the handler: it fires the event once, and stops and joins
    the observer once when there is one. *)
Lemma on_shutdown_once (self : server) (b : bool) :
  (on_shutdown self b).1 = self
  /\ occurrences is_fire_shutdown (on_shutdown self b).2 = 1%nat
  /\ occurrences is_observer_stop (on_shutdown self b).2
     = Nat.b2n (_watched_observer self)
  /\ occurrences is_observer_join (on_shutdown self b).2
     = Nat.b2n (_watched_observer self).
Proof. destruct self as [[] []], b; repeat split. Qed.

(** Handling a SIGTERM fires nothing and touches neither the watcher, the
    plugins nor the daemon: it logs, schedules [shutdown_tornado] and, when
    the loop still runs, stops the loop. *)
Lemma deliver_sigterm_spec (self : server) (b loop_running : bool) :
  deliver_sigterm self b (sigterm_installed _register_shutdown_handlers)
    loop_running
  = sigterm_handler ++ (if loop_running then shutdown_tornado else []).
Proof. destruct loop_running; reflexivity. Qed.

Lemma occurrences_sigterms f (self : server) (b : bool) (sigterms : list bool) :
  (forall loop_running,
      occurrences f
        (deliver_sigterm self b (sigterm_installed _register_shutdown_handlers)
           loop_running) = 0%nat) ->
  occurrences f
    (flat_map
       (deliver_sigterm self b (sigterm_installed _register_shutdown_handlers))
       sigterms) = 0%nat.
Proof.
  intros H. induction sigterms as [|x rest IH]; [reflexivity|].
  cbn [flat_map]. now rewrite occurrences_app, H, IH.
Qed.

Lemma occurrences_deliver_during f (handled t : list action) (late : list nat) :
  occurrences f handled = 0%nat ->
  occurrences f (deliver_during handled late t) = occurrences f t.
Proof.
  intros H. induction late as [|k rest IH]; [reflexivity|].
  cbn [deliver_during].
  rewrite !occurrences_app, H, <- IH, Nat.add_0_l, <- occurrences_app.
  now rewrite take_drop.
Qed.

(** Counting in the trace of a whole termination comes down to counting in
    the one run of [on_shutdown]. *)
Lemma occurrences_termination f (self : server) (b : bool)
    (sigterms : list bool) (late : list nat) :
  occurrences f _register_shutdown_handlers = 0%nat ->
  occurrences f sigterm_handler = 0%nat ->
  occurrences f shutdown_tornado = 0%nat ->
  occurrences f (termination self b sigterms late)
  = occurrences f (on_shutdown self b).2.
Proof.
  intros Hr Hs Ht.
  assert (Hd : forall loop_running,
    occurrences f
      (deliver_sigterm self b (sigterm_installed _register_shutdown_handlers)
         loop_running) = 0%nat).
  { intros l. rewrite deliver_sigterm_spec, occurrences_app, Hs.
    destruct l; [exact Ht|reflexivity]. }
  unfold termination.
  rewrite !occurrences_app, Hr, occurrences_sigterms by exact Hd.
  rewrite occurrences_deliver_during by apply Hd.
  cbn [atexit_registered _register_shutdown_handlers flat_map app rev
       run_exitfuncs closure String.eqb Ascii.eqb Bool.eqb].
  now rewrite app_nil_r.
Qed.

(** C4: [on_shutdown] is a closure that only [atexit] knows, registered
    once; SIGTERM is answered by [sigterm_handler], which only has the loop
    stopped.  So however many SIGTERMs arrive, while the loop runs or after
    it, and whenever the process exits: the shutdown event is fired once,
    the plugins are called once, and the watcher is stopped and joined once
    when there is one (never when there is none); a second or third request
    to terminate repeats none of this. *)
Theorem termination_shuts_down_once (self : server) (still_busy : bool)
    (sigterms : list bool) (late : list nat) :
  occurrences is_fire_shutdown (termination self still_busy sigterms late)
  = 1%nat
  /\ occurrences is_observer_stop (termination self still_busy sigterms late)
     = Nat.b2n (_watched_observer self)
  /\ occurrences is_observer_join (termination self still_busy sigterms late)
     = Nat.b2n (_watched_observer self)
  /\ occurrences is_plugin_shutdown (termination self still_busy sigterms late)
     = 1%nat
  /\ occurrences is_daemon_terminated (termination self still_busy sigterms late)
     = Nat.b2n (_octoprint_daemon self)
  /\ atexit_registered (termination self still_busy sigterms late)
     = ["on_shutdown"]
  /\ occurrences is_ioloop_stop (termination self still_busy sigterms late)
     = length (List.filter id sigterms).
Proof.
  rewrite !occurrences_termination by reflexivity.
  destruct (on_shutdown_once self still_busy) as (_ & Hf & Ho & Hj).
  split; [exact Hf|]. split; [exact Ho|]. split; [exact Hj|].
  split; [destruct self as [[] []], still_busy; reflexivity|].
  split; [destruct self as [[] []], still_busy; reflexivity|].
  split.
  - unfold termination, atexit_registered.
    rewrite !flat_map_app.
    assert (H1 : forall l, flat_map
        (fun a => match a with AtexitRegister f => [f] | _ => [] end)
        (flat_map (deliver_sigterm self still_busy
                     (sigterm_installed _register_shutdown_handlers)) l) = []).
    { induction l as [|x l IH]; [reflexivity|].
      cbn [flat_map]. rewrite flat_map_app, IH, deliver_sigterm_spec.
      destruct x; reflexivity. }
    assert (H2 : forall handled t late0,
      flat_map (fun a => match a with AtexitRegister f => [f] | _ => [] end)
        handled = [] ->
      flat_map (fun a => match a with AtexitRegister f => [f] | _ => [] end)
        (deliver_during handled late0 t)
      = flat_map (fun a => match a with AtexitRegister f => [f] | _ => [] end) t).
    { intros handled t late0 Hh. induction late0 as [|k rest IH]; [reflexivity|].
      cbn [deliver_during]. rewrite !flat_map_app, Hh, <- IH.
      cbn [app]. rewrite <- flat_map_app. now rewrite take_drop. }
    rewrite H1, H2 by reflexivity.
    destruct self as [[] []], still_busy; reflexivity.
  - unfold termination. rewrite !occurrences_app.
    rewrite occurrences_deliver_during by reflexivity.
    replace (occurrences is_ioloop_stop _register_shutdown_handlers)
      with 0%nat by reflexivity.
    replace (occurrences is_ioloop_stop
               (run_exitfuncs self still_busy
                  (atexit_registered _register_shutdown_handlers)))
      with 0%nat by (destruct self as [[] []], still_busy; reflexivity).
    induction sigterms as [|x rest IH]; [reflexivity|].
    cbn [flat_map]. rewrite occurrences_app, deliver_sigterm_spec.
    destruct x; cbn [List.filter id length] in *; simpl in *; lia.
Qed.

(** C7 (as amended): after firing the shutdown event the handler waits for
    the event manager with a timeout of 15 seconds, once; when the event
    manager is still busy it logs a warning and goes on: it notifies the
    daemon when there is one and logs its goodbye.  Stopping the event loop
    is no part of the handler: that is done by [shutdown_tornado], which the
    SIGTERM handler schedules. *)
Theorem on_shutdown_bounded_wait (self : server) (still_busy : bool) :
  exists t1 t2 t3,
    (on_shutdown self still_busy).2
    = t1 ++ [Fire SHUTDOWN] ++ t2 ++ [EventManagerJoin 15%Q]
      ++ (if still_busy
          then [Log (warning "Event loop was still busy processing after 15.0s, shutting down anyhow")]
          else [])
      ++ t3 ++ [Log (info "Goodbye!")]
    /\ Forall (fun a => match a with EventManagerJoin _ => False | _ => True end)
              (t1 ++ t2 ++ t3)
    /\ occurrences is_daemon_terminated t3 = Nat.b2n (_octoprint_daemon self)
    /\ occurrences is_daemon_terminated (t1 ++ t2) = 0%nat
    /\ occurrences is_ioloop_stop (on_shutdown self still_busy).2 = 0%nat
    /\ sigterm_handler
       = [Log (debug "SIGTERM received..."); AddCallbackFromSignal "shutdown_tornado"]
    /\ occurrences is_ioloop_stop shutdown_tornado = 1%nat.
Proof.
  exists ([Log (info "Shutting down...")]
          ++ if _watched_observer self then [ObserverStop; ObserverJoin] else []),
         _call_shutdown_plugins,
         (if _octoprint_daemon self
          then [Log (info "Cleaning up daemon pidfile"); DaemonTerminated] else []).
  destruct self as [[] []], still_busy;
    (split; [reflexivity|]); (split; [repeat constructor|]); repeat split.
Qed.

(** C7 (counterexample): the event manager is still busy after the
    timeout; the handler warns, notifies the daemon and says goodbye, and
    never stops the event loop. *)
Lemma on_shutdown_does_not_stop_event_loop :
  List.filter (fun a => is_warning a || is_daemon_terminated a || is_ioloop_stop a)
    (on_shutdown watching true).2
  = [ Log (warning "Event loop was still busy processing after 15.0s, shutting down anyhow");
      DaemonTerminated ]
  /\ ~ teardown_after_timeout.
Proof.
  split; [reflexivity|].
  intros H. destruct (H watching) as (t1 & t2 & t3 & Heq & _ & Hstop).
  assert (Hin : In IOLoopStop (on_shutdown watching true).2).
  { rewrite Heq. repeat (apply in_or_app; right). exact Hstop. }
  simpl in Hin. intuition discriminate.
Qed.

End ShutdownProps.

(** ** Intermediary server and port handover *)

Module IntermediaryProps.
Import Intermediary.

(** A run of [run] gets past the intermediary server exactly when bind and
    activate succeed. *)
Lemma run_returns (e : env) :
  (run e).2 = Returned tt ->
  server_bind e = Returned tt /\ server_activate e = Returned tt.
Proof.
  unfold run, _start_intermediary_server.
  destruct (server_bind e) as [[]|]; [|discriminate].
  destruct (server_activate e) as [[]|]; [|discriminate].
  auto.
Qed.

(** The trace of a run that returns depends on the environment only
    through the answer of [set_close_exec]. *)
Lemma run_trace (e : env) :
  (run e).2 = Returned tt ->
  (run e).1 = (if is_raised (set_close_exec e)
               then (run no_close_exec).1 else (run all_fine).1).
Proof.
  intros H. destruct (run_returns e H) as [Hb Ha].
  unfold run, _start_intermediary_server. rewrite Hb, Ha.
  destruct (set_close_exec e) as [[]|]; reflexivity.
Qed.

(** C5 (as amended): in a run that reaches the handover, the intermediary
    server is shut down and closed, in this order, before the full server
    binds; the port never has two owners; and from the close until the bind
    of the full server nobody holds it. *)
Theorem handover_stop_then_bind (e : env) :
  (run e).2 = Returned tt ->
  exists i j k,
    (i < j < k)%nat
    /\ (run e).1 !! i = Some ServerShutdown
    /\ (run e).1 !! j = Some ServerClose
    /\ (run e).1 !! k = Some Listen
    /\ List.filter is_listen (run e).1 = [Listen]
    /\ Forall (fun p => owners p <= 1)%nat (instants (run e).1)
    /\ map owners (take (k - j) (drop (S j) (instants (run e).1)))
       = repeat 0%nat (k - j)
    /\ owners (instant (run e).1 j) = 1%nat
    /\ owners (instant (run e).1 (S k)) = 1%nat.
Proof.
  intros H. rewrite (run_trace e H).
  destruct (is_raised (set_close_exec e)).
  - exists 40%nat, 41%nat, 43%nat.
    split; [lia|]. do 4 (split; [reflexivity|]).
    split; [vm_compute; repeat constructor|]. repeat split.
  - exists 39%nat, 40%nat, 42%nat.
    split; [lia|]. do 4 (split; [reflexivity|]).
    split; [vm_compute; repeat constructor|]. repeat split.
Qed.

Lemma handover_stop_then_bind_witness :
  exists i j k,
    (i < j < k)%nat
    /\ (run all_fine).1 !! i = Some ServerShutdown
    /\ (run all_fine).1 !! j = Some ServerClose
    /\ (run all_fine).1 !! k = Some Listen
    /\ List.filter is_listen (run all_fine).1 = [Listen]
    /\ Forall (fun p => owners p <= 1)%nat (instants (run all_fine).1)
    /\ map owners (take (k - j) (drop (S j) (instants (run all_fine).1)))
       = repeat 0%nat (k - j)
    /\ owners (instant (run all_fine).1 j) = 1%nat
    /\ owners (instant (run all_fine).1 (S k)) = 1%nat.
Proof. apply (handover_stop_then_bind all_fine). reflexivity. Defined.

(** C5 (counterexample): every call succeeds; the intermediary server is
    bound by op 9 and closed by op 40, the full server binds with
    op 42; after 41 operations the port has no owner. *)
Lemma port_unowned_between_stop_and_bind :
  (run all_fine).2 = Returned tt
  /\ (run all_fine).1 !! 9%nat = Some (ServerBind true)
  /\ (run all_fine).1 !! 40%nat = Some ServerClose
  /\ (run all_fine).1 !! 42%nat = Some Listen
  /\ owners (instant (run all_fine).1 41) = 0%nat
  /\ ~ always_one_owner.
Proof.
  do 5 (split; [reflexivity|]).
  intros H.
  specialize (H all_fine 9%nat 41%nat eq_refl eq_refl ltac:(lia)).
  vm_compute in H. discriminate H.
Qed.

(** The trace of [_start_intermediary_server] is one of six, by what
    [set_close_exec], bind and activate answer. *)
Lemma start_trace (e : env) (self : bootstrap) :
  (_start_intermediary_server e self).1.2
  = [ Logged (debug "Starting intermediary server"); CreateServer ]
    ++ try_set_close_exec (set_close_exec e)
    ++ match server_bind e, server_activate e with
       | Raised _, _ => [ ServerBind false; ServerClose ]
       | Returned _, Raised _ =>
           [ ServerBind true; ServerActivate false; ServerClose ]
       | Returned _, Returned _ =>
           [ ServerBind true; ServerActivate true; StartThread "serve";
             Logged (info "Intermediary server started") ]
       end.
Proof.
  unfold _start_intermediary_server.
  destruct (server_bind e) as [[]|]; [destruct (server_activate e) as [[]|]|];
    cbn [fst snd]; now rewrite <- app_assoc.
Qed.

(** C6: the socket of the intermediary server is bound once, after it was
    created and after [set_close_exec] was attempted on it, and at the bind
    its descriptor is close-on-exec, in every run: also in one where
    [set_close_exec] raises (the error is logged and the start goes on), as
    the socket has been close-on-exec since its creation.  The same holds at
    every later instant of [run], through the handover. *)
Theorem descriptor_close_on_exec_at_bind (e : env) (self : bootstrap) :
  (exists i j,
      (1 < i < j)%nat
      /\ (_start_intermediary_server e self).1.2 !! 1%nat = Some CreateServer
      /\ (_start_intermediary_server e self).1.2 !! i
         = Some (SetCloseExec (negb (is_raised (set_close_exec e))))
      /\ (_start_intermediary_server e self).1.2 !! j
         = Some (ServerBind (negb (is_raised (server_bind e))))
      /\ List.filter is_bind (_start_intermediary_server e self).1.2
         = [ServerBind (negb (is_raised (server_bind e)))]
      /\ close_on_exec (instant (_start_intermediary_server e self).1.2 j)
         = true
      /\ (if is_raised (set_close_exec e)
          then (_start_intermediary_server e self).1.2 !! S i
               = Some (Logged (exception "Error while attempting to set_close_exec on intermediary server socket"))
               /\ j = S (S i)
          else j = S i))
  /\ Forall (fun p => close_on_exec p = true)
       (drop 2 (instants (_start_intermediary_server e self).1.2))
  /\ Forall (fun p => close_on_exec p = true)
       (drop (length network_setup + 2) (instants (run e).1))
  /\ marked_before_bind.
Proof.
  assert (Hall : forall e self,
    Forall (fun p => close_on_exec p = true)
      (drop 2 (instants (_start_intermediary_server e self).1.2))).
  { intros e0 self0. rewrite start_trace.
    destruct (set_close_exec e0) as [[]|], (server_bind e0) as [[]|];
      [destruct (server_activate e0) as [[]|]| |
       destruct (server_activate e0) as [[]|]|];
      vm_compute; repeat constructor. }
  split; [|split; [apply Hall|split]].
  - rewrite start_trace.
    destruct (set_close_exec e) as [[]|].
    + exists 2%nat, 3%nat.
      destruct (server_bind e) as [[]|]; [destruct (server_activate e) as [[]|]|];
        repeat split; lia.
    + exists 2%nat, 4%nat.
      destruct (server_bind e) as [[]|]; [destruct (server_activate e) as [[]|]|];
        repeat split; lia.
  - unfold run. pose proof (start_trace e (Bootstrap false)) as Ht.
    destruct (_start_intermediary_server e (Bootstrap false)) as [[self' t] out].
    cbn [fst snd] in Ht. subst t.
    destruct out as [[]|];
      destruct (set_close_exec e) as [[]|], (server_bind e) as [[]|];
      try destruct (server_activate e) as [[]|];
      destruct self' as [[]];
      vm_compute; repeat constructor.
  - intros e0 self0 n Hn.
    pose proof (Hall e0 self0) as H.
    rewrite List.Forall_forall in H. apply H.
    assert (Hlen : (n < length (_start_intermediary_server e0 self0).1.2)%nat)
      by (apply lookup_lt_is_Some; eauto).
    assert (H2 : (2 <= n)%nat).
    { rewrite start_trace in Hn.
      destruct n as [|[|n]]; [discriminate Hn|discriminate Hn|lia]. }
    apply list_elem_of_In, list_elem_of_lookup.
    exists (n - 2)%nat. rewrite lookup_drop. unfold instants.
    rewrite list_lookup_fmap.
    replace (2 + (n - 2))%nat with n by lia.
    rewrite lookup_seq_lt by lia. reflexivity.
Qed.

End IntermediaryProps.

(** ** Python's [sorted] *)

Section SortedFacts.
Context {A : Type} (before : A -> A -> bool).
Hypothesis before_asym : forall a b, before a b = true -> before b a = false.
Hypothesis not_before_trans :
  forall a b c, before b a = false -> before c b = false -> before c a = false.

Lemma insert_sorted_perm x l : Permutation (insert_sorted before x l) (x :: l).
Proof.
  induction l as [|y l IH]; simpl; [reflexivity|].
  destruct (before y x); [|reflexivity].
  rewrite IH. apply perm_swap.
Qed.

Lemma sorted_perm l : Permutation (sorted before l) l.
Proof.
  induction l as [|x l IH]; simpl; [reflexivity|].
  rewrite insert_sorted_perm. now apply perm_skip.
Qed.

Lemma insert_sorted_strongly x l :
  StronglySorted (fun a b => before b a = false) l ->
  StronglySorted (fun a b => before b a = false) (insert_sorted before x l).
Proof.
  induction 1 as [|y l Hl IH Hy]; simpl.
  - repeat constructor.
  - destruct (before y x) eqn:Hyx.
    + constructor; [exact IH|].
      rewrite insert_sorted_perm. constructor; [now apply before_asym|exact Hy].
    + constructor; [now constructor|].
      constructor; [exact Hyx|].
      eapply List.Forall_impl; [|exact Hy].
      intros z Hz. now apply (not_before_trans x y z).
Qed.

Lemma sorted_strongly l :
  StronglySorted (fun a b => before b a = false) (sorted before l).
Proof.
  induction l as [|x l IH]; simpl; [constructor|].
  now apply insert_sorted_strongly.
Qed.
End SortedFacts.

(** ** Preemptive cache replay *)

Module PreemptiveCacheProps.
Import PreemptiveCache.

Lemma Qgtb_lt (a b : Q) : Qgtb a b = true <-> (b < a)%Q.
Proof.
  unfold Qgtb. rewrite negb_true_iff. split.
  - intros H. apply Qnot_le_lt. intros Hle.
    apply Qle_bool_iff in Hle. congruence.
  - intros H. destruct (Qle_bool a b) eqn:E; [|reflexivity].
    apply Qle_bool_iff in E. exfalso. now apply (Qlt_not_le b a).
Qed.

Lemma filter_current_entries_spec cutoff e :
  filter_current_entries cutoff e = true <-> recent cutoff e.
Proof.
  unfold filter_current_entries, recent. destruct (_timestamp e) as [t|].
  - rewrite Qgtb_lt. split.
    + intros H. now exists t.
    + intros (t' & [= <-] & H). exact H.
  - split; [discriminate|]. intros (t & [=] & _).
Qed.

Lemma filter_http_entries_spec e :
  filter_http_entries e = true <-> targets_http e.
Proof.
  unfold filter_http_entries, targets_http. destruct (base_url e) as [u|].
  - split.
    + intros H. apply andb_true_iff in H as [_ H].
      apply orb_true_iff in H. now exists u.
    + intros (u' & [= <-] & H). apply andb_true_iff. split.
      * destruct u; [|reflexivity]. destruct H; discriminate.
      * now apply orb_true_iff.
  - split; [discriminate|]. intros (u & [=] & _).
Qed.

Lemma filter_entries_spec cutoff e :
  filter_entries cutoff e = true <-> recent cutoff e /\ targets_http e.
Proof.
  unfold filter_entries. simpl. rewrite andb_true_r, andb_true_iff.
  now rewrite filter_current_entries_spec, filter_http_entries_spec.
Qed.

Lemma cleanup_spec cutoff root entries e :
  In e (cleanup cutoff root entries)
  <-> In e entries /\ recent cutoff e /\ targets_http e.
Proof. unfold cleanup. now rewrite filter_In, filter_entries_spec. Qed.

(** Strings under [String.compare]: a strict total order. *)
Lemma ascii_compare_refl a : Ascii.compare a a = Eq.
Proof. apply N.compare_refl. Qed.

Lemma ascii_compare_lt_trans a b c :
  Ascii.compare a b = Lt -> Ascii.compare b c = Lt -> Ascii.compare a c = Lt.
Proof. unfold Ascii.compare. rewrite !N.compare_lt_iff. lia. Qed.

Lemma compare_refl s : String.compare s s = Eq.
Proof.
  induction s as [|a s IH]; simpl; [reflexivity|].
  now rewrite ascii_compare_refl.
Qed.

Lemma compare_lt_trans a b c :
  String.compare a b = Lt -> String.compare b c = Lt -> String.compare a c = Lt.
Proof.
  revert b c. induction a as [|x a IH]; intros [|y b] [|z c]; simpl;
    try discriminate; auto.
  destruct (Ascii.compare x y) eqn:Exy; try discriminate.
  - apply Ascii.compare_eq_iff in Exy. subst y.
    destruct (Ascii.compare x z); try discriminate; auto. apply IH.
  - intros _. destruct (Ascii.compare y z) eqn:Eyz; try discriminate.
    + apply Ascii.compare_eq_iff in Eyz. subst z. now rewrite Exy.
    + now rewrite (ascii_compare_lt_trans x y z).
Qed.

Lemma ltb_lt a b : String.ltb a b = true <-> String.compare a b = Lt.
Proof. unfold String.ltb. destruct (String.compare a b); split; congruence. Qed.

Lemma compare_total a b :
  String.compare a b = Lt \/ a = b \/ String.compare b a = Lt.
Proof.
  destruct (String.compare a b) eqn:E.
  - right. left. now apply String.compare_eq_iff.
  - now left.
  - right. right. rewrite String.compare_antisym, E. reflexivity.
Qed.

(** The order of the route keys. *)
Lemma route_before_lt y x : route_before y x = true <-> route_lt y x.
Proof.
  unfold route_before, route_lt.
  rewrite orb_true_iff, andb_true_iff, Nat.ltb_lt, Nat.eqb_eq. reflexivity.
Qed.

Lemma route_lt_irrefl r : ~ route_lt r r.
Proof.
  intros [H|[_ H]]; [lia|].
  apply ltb_lt in H. rewrite compare_refl in H. discriminate.
Qed.

Lemma route_lt_trans a b c : route_lt a b -> route_lt b c -> route_lt a c.
Proof.
  unfold route_lt. intros [H1|[H1 L1]] [H2|[H2 L2]]; try (left; lia).
  right. split; [lia|]. apply ltb_lt. apply ltb_lt in L1, L2.
  now apply (compare_lt_trans a b c).
Qed.

Lemma route_lt_total a b : route_lt a b \/ a = b \/ route_lt b a.
Proof.
  unfold route_lt. destruct (Nat.lt_total (depth a) (depth b)) as [H|[H|H]].
  - left. now left.
  - destruct (compare_total a b) as [L|[E|L]].
    + left. right. split; [exact H|now apply ltb_lt].
    + right. now left.
    + right. right. right. split; [now symmetry|now apply ltb_lt].
  - right. right. now left.
Qed.

Lemma route_not_before b a : route_before b a = false <-> ~ route_lt b a.
Proof.
  rewrite <- route_before_lt. destruct (route_before b a); split; congruence.
Qed.

Lemma route_before_asym a b :
  route_before a b = true -> route_before b a = false.
Proof.
  rewrite route_before_lt, route_not_before. intros H1 H2.
  apply (route_lt_irrefl a). now apply (route_lt_trans a b a).
Qed.

Lemma route_not_before_trans a b c :
  route_before b a = false -> route_before c b = false ->
  route_before c a = false.
Proof.
  rewrite !route_not_before. intros Hba Hcb Hca.
  destruct (route_lt_total a b) as [H|[->|H]]; [|tauto..].
  apply Hcb. now apply (route_lt_trans c a b).
Qed.

(** The routes are visited in strictly increasing key order. *)
Lemma sorted_routes_increasing (data : gmap string (list entry)) :
  StronglySorted route_lt (sorted_routes data).
Proof.
  unfold sorted_routes.
  pose proof (sorted_strongly route_before route_before_asym
                route_not_before_trans (map_to_list data).*1) as Hs.
  assert (Hnd : NoDup (sorted route_before (map_to_list data).*1)).
  { rewrite sorted_perm. apply NoDup_fst_map_to_list. }
  induction Hs as [|r l Hl IH Hr]; [constructor|].
  apply NoDup_cons in Hnd as [Hnotin Hnd].
  constructor; [now apply IH|].
  apply List.Forall_forall. intros r' Hin.
  rewrite List.Forall_forall in Hr. specialize (Hr r' Hin).
  apply route_not_before in Hr.
  destruct (route_lt_total r r') as [H|[->|H]]; [exact H| |tauto].
  exfalso. apply Hnotin. now apply list_elem_of_In.
Qed.

Lemma sorted_routes_keys (data : gmap string (list entry)) r :
  In r (sorted_routes data) <-> is_Some (data !! r).
Proof.
  unfold sorted_routes. rewrite <- list_elem_of_In, sorted_perm.
  rewrite list_elem_of_fmap. split.
  - intros ([r' es] & -> & Hin). apply elem_of_map_to_list in Hin. now exists es.
  - intros [es Hes]. exists (r, es). split; [reflexivity|].
    now apply elem_of_map_to_list.
Qed.

Lemma StronglySorted_weaken {A} (R1 R2 : A -> A -> Prop) l :
  (forall a b, R1 a b -> R2 a b) ->
  StronglySorted R1 l -> StronglySorted R2 l.
Proof.
  intros Himp. induction 1 as [|x l Hl IH Hx]; constructor; [exact IH|].
  eapply List.Forall_impl; [|exact Hx]. intros y. apply Himp.
Qed.

(** The entries of a route are visited with non-increasing hit count. *)
Lemma sorted_entries_decreasing (data : gmap string (list entry)) route :
  StronglySorted (fun a b => (hit_count b <= hit_count a)%Z)
                 (sorted_entries data route).
Proof.
  unfold sorted_entries.
  eapply StronglySorted_weaken;
    [|apply (sorted_strongly entry_before)].
  - intros a b. unfold entry_before. rewrite Z.ltb_ge. auto.
  - intros a b. unfold entry_before. rewrite Z.ltb_lt, Z.ltb_ge. lia.
  - intros a b c. unfold entry_before. rewrite !Z.ltb_ge. lia.
Qed.

Lemma StronglySorted_filter {A} (R : A -> A -> Prop) (f : A -> bool) l :
  StronglySorted R l -> StronglySorted R (List.filter f l).
Proof.
  induction 1 as [|x l Hl IH Hx]; simpl; [constructor|].
  destruct (f x); [|exact IH]. constructor; [exact IH|].
  apply List.Forall_forall. intros y Hy. apply filter_In in Hy as [Hy _].
  rewrite List.Forall_forall in Hx. now apply Hx.
Qed.

Lemma replay_group_sorted (f : string -> list entry) routes :
  StronglySorted route_lt routes ->
  (forall r, StronglySorted (fun a b => (hit_count b <= hit_count a)%Z) (f r)) ->
  StronglySorted replay_order (flat_map (fun r => map (pair r) (f r)) routes).
Proof.
  intros Hroutes Hentries.
  induction Hroutes as [|r rs Hrs IH Hr]; simpl; [constructor|].
  apply StronglySorted_app_2.
  - intros x y Hx Hy. left.
    apply list_elem_of_In, in_map_iff in Hx as (e & <- & _).
    apply list_elem_of_In, in_flat_map in Hy as (r' & Hr' & Hy).
    apply in_map_iff in Hy as (e' & <- & _). simpl.
    rewrite List.Forall_forall in Hr. now apply Hr.
  - specialize (Hentries r). induction Hentries as [|e es Hes IHes He];
      simpl; constructor; [exact IHes|].
    apply List.Forall_forall. intros y Hy.
    apply in_map_iff in Hy as (e' & <- & He').
    right. simpl. split; [reflexivity|].
    rewrite List.Forall_forall in He. now apply He.
  - exact IH.
Qed.

(** What is replayed: the entries of the data that pass the plugin
    check. *)
Lemma execute_caching_In plugin_ok (data : gmap string (list entry)) route e :
  In (route, e) (execute_caching plugin_ok data)
  <-> In e (default [] (data !! route))
      /\ passes_plugin_check plugin_ok e = true.
Proof.
  unfold execute_caching. rewrite in_flat_map. split.
  - intros (r & _ & Hin). apply in_map_iff in Hin as (e' & [= -> ->] & Hin).
    apply filter_In in Hin as [Hin Hok]. split; [|exact Hok].
    unfold sorted_entries in Hin.
    apply list_elem_of_In. apply list_elem_of_In in Hin.
    now rewrite sorted_perm in Hin.
  - intros [Hin Hok]. exists route. split.
    + apply sorted_routes_keys. destruct (data !! route); [eauto|destruct Hin].
    + apply in_map. apply filter_In. split; [|exact Hok].
      unfold sorted_entries. apply list_elem_of_In.
      rewrite sorted_perm. now apply list_elem_of_In.
Qed.

Lemma cache_data_spec now timeout (all_data : gmap string (list entry)) route e :
  In e (default [] (cache_data now timeout all_data !! route))
  <-> In e (default [] (all_data !! route))
      /\ recent (cutoff_timestamp now timeout) e /\ targets_http e.
Proof.
  unfold cache_data, clean_all_data. rewrite map_lookup_imap.
  destruct (all_data !! route) as [entries|]; simpl; [|tauto].
  rewrite <- (cleanup_spec (cutoff_timestamp now timeout) route entries e).
  destruct (cleanup (cutoff_timestamp now timeout) route entries);
    reflexivity.
Qed.

(** C8: the entries handed to the replay are exactly the recorded entries
    that carry a timestamp newer than [now] minus the retention window and a
    base URL that starts with "http://" or "https://"; an older entry, an
    entry without timestamp and an entry with any other base URL are gone,
    whatever their age, before anything is replayed.  This holds for the
    filter handed to [clean_all_data], route by route for the data it
    returns, and so for what is replayed. *)
Theorem replay_pass_keeps_recent_http
    (now : Q) (timeout : Z) (all_data : gmap string (list entry))
    (route : string) (e : entry) :
  (forall entries,
     In e (cleanup (cutoff_timestamp now timeout) route entries)
     <-> In e entries
         /\ recent (cutoff_timestamp now timeout) e /\ targets_http e)
  /\ (In e (default [] (cache_data now timeout all_data !! route))
      <-> In e (default [] (all_data !! route))
          /\ recent (cutoff_timestamp now timeout) e /\ targets_http e)
  /\ (forall plugin_ok,
        In (route, e)
           (_execute_preemptive_flask_caching now timeout plugin_ok all_data)
        <-> (In e (default [] (all_data !! route))
             /\ recent (cutoff_timestamp now timeout) e /\ targets_http e)
            /\ passes_plugin_check plugin_ok e = true)
  /\ (cutoff_timestamp now timeout == now - inject_Z timeout * 86400)%Q.
Proof.
  split; [intros entries; apply cleanup_spec|].
  split; [apply cache_data_spec|]. split.
  - intros plugin_ok. unfold _execute_preemptive_flask_caching.
    rewrite <- cache_data_spec.
    destruct (decide (cache_data now timeout all_data = ∅)) as [Hempty|_].
    + rewrite Hempty, lookup_empty. simpl. tauto.
    + apply execute_caching_In.
  - unfold cutoff_timestamp. rewrite !inject_Z_mult. ring.
Qed.

Lemma count_slashes (route : string) : depth route = slashes route.
Proof.
  unfold depth, slashes.
  induction route as [|c rest IH]; [reflexivity|].
  cbn [count list_ascii_of_string List.filter].
  destruct (Ascii.eqb c "/"); cbn [length]; lia.
Qed.

Lemma replay_order_replays_before x y : replay_order x y -> replays_before x y.
Proof.
  unfold replay_order, route_lt, replays_before, hit_count.
  rewrite !count_slashes, ltb_lt. tauto.
Qed.

Lemma execute_caching_sorted plugin_ok (data : gmap string (list entry)) :
  StronglySorted replay_order (execute_caching plugin_ok data).
Proof.
  unfold execute_caching.
  apply (replay_group_sorted
           (fun r => List.filter (passes_plugin_check plugin_ok)
                       (sorted_entries data r))).
  - apply sorted_routes_increasing.
  - intros r. apply StronglySorted_filter, sorted_entries_decreasing.
Qed.

(** C9 (as amended): the replay goes route by route.  The routes come in
    increasing number of "/" characters and, with as many "/", in
    increasing string order; the entries of one route come with
    non-increasing recorded hit count, an entry without one counting as 0.
    So of any two replays the earlier one has fewer "/" in its route, or as
    many and the smaller route, or the same route and a hit count that is
    not smaller.  What is replayed are the entries of the data that pass
    the plugin check.  With "/a" recorded at hit count 5 and "/a/b" at 50,
    "/a" is replayed first; "/b" is replayed before "/a/a" although it is
    the greater string; hit counts 5, none, 50, 7 of one route are replayed
    as 50, 7, 5, none. *)
Theorem replay_order_by_slashes_then_hits
    (plugin_ok : string -> bool) (data : gmap string (list entry)) :
  StronglySorted replays_before (execute_caching plugin_ok data)
  /\ (forall route e,
        In (route, e) (execute_caching plugin_ok data)
        <-> In e (default [] (data !! route))
            /\ passes_plugin_check plugin_ok e = true)
  /\ _execute_preemptive_flask_caching 2000 30 plugin_ok scenario
     = [("/a", hit 5); ("/a/b", hit 50)]
  /\ _execute_preemptive_flask_caching 2000 30 plugin_ok deeper_is_smaller
     = [("/b", hit 1); ("/a/a", hit 1)]
  /\ String.compare "/a/a" "/b" = Lt
  /\ _execute_preemptive_flask_caching 2000 30 plugin_ok one_route
     = [("/a", hit 50); ("/a", hit 7); ("/a", hit 5); ("/a", uncounted)].
Proof.
  split.
  { eapply StronglySorted_weaken; [|apply execute_caching_sorted].
    apply replay_order_replays_before. }
  split; [intros route e; apply execute_caching_In|].
  repeat split; vm_compute; reflexivity.
Qed.

(** C9 (counterexample): "/b/" has one path segment and "/a/c" has two,
    but both have two "/": "/a/c", the smaller string, is replayed first,
    the deeper route before the shallower one. *)
Lemma trailing_slash_replayed_after_deeper_route :
  path_segment_depth "/b/" = 1%nat
  /\ path_segment_depth "/a/c" = 2%nat
  /\ _execute_preemptive_flask_caching 2000 30 (fun _ => true) trailing_slash
     = [("/a/c", hit 1); ("/b/", hit 1)]
  /\ ~ shallowest_first.
Proof.
  do 3 (split; [vm_compute; reflexivity|]).
  intros H. specialize (H (fun _ => true) trailing_slash).
  assert (Heq : execute_caching (fun _ => true) trailing_slash
                = [("/a/c", hit 1); ("/b/", hit 1)])
    by (vm_compute; reflexivity).
  rewrite Heq in H. apply StronglySorted_inv in H as [_ H].
  apply Forall_inv in H. vm_compute in H. lia.
Qed.

End PreemptiveCacheProps.

(** ** The request handler of the intermediary server *)

Module HandlerProps.
Import Handler.

Lemma before_query_append (p q : string) :
  before_query p = p -> before_query (p ++ "?" ++ q) = p.
Proof.
  induction p as [|c p IH]; simpl; [reflexivity|].
  destruct (Ascii.eqb c "?"); [discriminate|].
  intros [= H]. f_equal. now apply IH.
Qed.

Lemma before_query_idem (p : string) :
  before_query (before_query p) = before_query p.
Proof.
  induction p as [|c p IH]; simpl; [reflexivity|].
  destruct (Ascii.eqb c "?") eqn:E; [reflexivity|].
  simpl. rewrite E. now f_equal.
Qed.

(** X1: the handler answers by the part of the request path before the
    first "?": whatever query string follows, the reply is the one for the
    bare path. *)
Theorem do_GET_ignores_query (rules : list rule) (path query : string) :
  do_GET rules (before_query path ++ "?" ++ query)
  = do_GET rules path.
Proof.
  unfold do_GET. f_equal.
  rewrite before_query_append; [|apply before_query_idem].
  reflexivity.
Qed.

Lemma serve_not_found (rules : list rule) (p : string) :
  serve rules p = not_found <-> Forall (fun r => r.1.1 <> p) rules.
Proof.
  induction rules as [|r rules IH]; simpl.
  - split; [constructor|reflexivity].
  - destruct (String.eqb_spec p r.1.1) as [->|Hne].
    + split.
      * destruct r as [[path data] [t|]]; simpl;
          [destruct (String.eqb t "")|]; discriminate.
      * intros H. inversion H; subst. congruence.
    + rewrite IH. split.
      * intros H. constructor; [congruence|exact H].
      * intros H. now inversion H.
Qed.

Lemma serve_first_match (pre post : list rule) (r : rule) :
  Forall (fun r' => r'.1.1 <> r.1.1) pre ->
  serve (pre ++ r :: post) r.1.1 = found r.
Proof.
  induction 1 as [|r' pre Hne _ IH]; simpl.
  - now rewrite String.eqb_refl.
  - destruct (String.eqb_spec r.1.1 r'.1.1); [congruence|exact IH].
Qed.

Lemma status_canned contents gif (p : string) :
  status (serve (Handler.rules contents gif) p)
  = Some (if String.eqb p "/" || String.eqb p "/favicon.ico"
             || String.eqb p "/intermediary.gif"
          then 200%Z else 404%Z).
Proof.
  unfold Handler.rules, raw_rules. simpl.
  destruct (String.eqb p "/"); [reflexivity|].
  destruct (String.eqb p "/favicon.ico"); [reflexivity|].
  destruct (String.eqb p "/intermediary.gif"); reflexivity.
Qed.

(** X2: a request gets the 404 reply, status line and body without any
    header block, exactly when no rule carries its path; otherwise the
    first rule with that path answers with status 200, and rules after it
    are not looked at.  With the rule table of the intermediary server the
    status is 200 exactly for "/", "/favicon.ico" and
    "/intermediary.gif". *)
Theorem do_GET_first_rule_or_404
    (rules : list rule) (path : string)
    (contents : list string -> string) (gif : string) :
  (do_GET rules path = [SendResponse 404; Write "Not found"]
   <-> Forall (fun r => r.1.1 <> before_query path) rules)
  /\ (forall pre r post,
        rules = pre ++ r :: post ->
        r.1.1 = before_query path ->
        Forall (fun r' => r'.1.1 <> before_query path) pre ->
        do_GET rules path = found r /\ status (do_GET rules path) = Some 200%Z)
  /\ (status (do_GET (Handler.rules contents gif) path) = Some 200%Z
      <-> In (before_query path) ["/"; "/favicon.ico"; "/intermediary.gif"])
  /\ (status (do_GET (Handler.rules contents gif) path) = Some 404%Z
      <-> ~ In (before_query path) ["/"; "/favicon.ico"; "/intermediary.gif"]).
Proof.
  split; [apply serve_not_found|]. split.
  - intros pre r post -> Hr Hpre. unfold do_GET. rewrite <- Hr in *.
    rewrite serve_first_match by exact Hpre.
    split; [reflexivity|]. destruct r as [[p d] [t|]]; reflexivity.
  - unfold do_GET. rewrite status_canned.
    destruct (String.eqb_spec (before_query path) "/") as [->|H1];
      [simpl; split; split; intros; try tauto; try discriminate;
       exfalso; tauto|].
    destruct (String.eqb_spec (before_query path) "/favicon.ico") as [->|H2];
      [simpl; split; split; intros; try tauto; try discriminate;
       exfalso; tauto|].
    destruct (String.eqb_spec (before_query path) "/intermediary.gif")
      as [->|H3];
      [simpl; split; split; intros; try tauto; try discriminate;
       exfalso; tauto|].
    simpl. split; split; intros; try discriminate; try reflexivity;
      intuition congruence.
Qed.

Lemma do_GET_first_rule_or_404_witness :
  do_GET [("/a", "one", None); ("/b", "two", None); ("/b", "three", None)]
         "/b?x=1"
  = found ("/b", "two", None)
  /\ status
       (do_GET [("/a", "one", None); ("/b", "two", None); ("/b", "three", None)]
               "/b?x=1")
     = Some 200%Z.
Proof.
  apply (proj1 (proj2
    (do_GET_first_rule_or_404
       [("/a", "one", None); ("/b", "two", None); ("/b", "three", None)]
       "/b?x=1" (fun _ => "") ""))
    [("/a", "one", None)] ("/b", "two", None) [("/b", "three", None)]).
  - reflexivity.
  - reflexivity.
  - repeat constructor. simpl. discriminate.
Defined.

End HandlerProps.

(** ** Host, port and address family *)

Module NetworkProps.
Import Network.

Lemma network_setup_cases (e : env) (self : server) :
  match network_setup e self with
  | Returned self' =>
      _host self'
      = Some (default (default (if HAS_V6 e then "::" else "0.0.0.0")
                               (settings_host e))
                      (_host self))
      /\ _port self'
         = Some (default (default 5000%Z (settings_port e)) (_port self))
      /\ _v6_only self' = _v6_only self
      /\ (HAS_V6 e = true
          \/ (_v6_only self' = false
              /\ forall h, _host self' = Some h -> has_colon h = false))
  | Raised _ =>
      HAS_V6 e = false
      /\ (_v6_only self = true
          \/ has_colon (default (default "0.0.0.0" (settings_host e))
                                (_host self)) = true)
  end.
Proof.
  destruct self as [oh op v], e as [sh sp v6].
  unfold network_setup, _ensure_host, _ensure_port. simpl.
  destruct v6; simpl.
  - rewrite andb_false_r.
    destruct oh as [h|]; [|destruct sh as [h|]]; simpl;
      rewrite ?andb_false_r; destruct op as [p|]; try destruct sp as [p|];
      simpl; repeat split; auto.
  - rewrite andb_true_r. destruct v; simpl; [split; auto|].
    destruct oh as [h|]; [|destruct sh as [h|]]; simpl;
      rewrite ?andb_true_r;
      try (destruct (has_colon h) eqn:E; simpl; [split; auto|]);
      destruct op as [p|]; try destruct sp as [p|]; simpl;
      repeat split; auto; right; (split; [reflexivity|]);
      intros ? [= <-]; auto.
Qed.

(** X3: when the network setup of [run] returns, host and port are set, a
    host or port given to the server is kept, a missing host is the one of
    the settings or else "::" with IPv6 and "0.0.0.0" without, a missing
    port is the one of the settings or else 5000; and the setup returns
    only if the system supports IPv6 or neither the IPv6-only mode is asked
    for nor the host holds a ":". *)
Theorem network_setup_postcondition (e : env) (self : server) :
  match network_setup e self with
  | Returned self' =>
      _host self'
      = Some (default (default (if HAS_V6 e then "::" else "0.0.0.0")
                               (settings_host e))
                      (_host self))
      /\ _port self'
         = Some (default (default 5000%Z (settings_port e)) (_port self))
      /\ _v6_only self' = _v6_only self
      /\ (HAS_V6 e = true
          \/ (_v6_only self' = false
              /\ forall h, _host self' = Some h -> has_colon h = false))
  | Raised _ =>
      HAS_V6 e = false
      /\ (_v6_only self = true
          \/ has_colon (default (default "0.0.0.0" (settings_host e))
                                (_host self)) = true)
  end.
Proof. apply network_setup_cases. Qed.

(** X4: the intermediary server and the full server agree on the address
    family: the intermediary server is the dual-stack class exactly when
    the full server listens on all IPv4 and IPv6 addresses (address
    [None]), which is the case exactly for host "::" without the IPv6-only
    mode; it is the IPv4 class exactly when the host holds no ":"; and
    after a network setup that returned, an IPv6 class is chosen only on a
    system that supports IPv6. *)
Theorem server_class_matches_listen_address
    (e : env) (self : server) (host : string) (v6_only : bool) :
  (ServerClass host v6_only = HTTPServerV6DualStack
   <-> listen_address host v6_only = None)
  /\ (listen_address host v6_only = None <-> host = "::" /\ v6_only = false)
  /\ (ServerClass host v6_only = HTTPServerV4 <-> has_colon host = false)
  /\ (length (announced host v6_only) = 2%nat
      <-> listen_address host v6_only = None)
  /\ match network_setup e self with
     | Returned self' =>
         forall h, _host self' = Some h ->
           ServerClass h (_v6_only self') <> HTTPServerV4 -> HAS_V6 e = true
     | Raised _ => True
     end.
Proof.
  split; [|split; [|split; [|split]]].
  - unfold ServerClass, listen_address.
    destruct (String.eqb_spec host "::") as [->|Hne]; simpl.
    + destruct v6_only; simpl; split; congruence.
    + destruct (has_colon host); split; congruence.
  - unfold listen_address.
    destruct (String.eqb_spec host "::") as [->|Hne]; simpl.
    + destruct v6_only; simpl; intuition congruence.
    + intuition congruence.
  - unfold ServerClass. destruct (has_colon host).
    + destruct (String.eqb host "::" && negb v6_only); split; congruence.
    + tauto.
  - unfold announced, listen_address.
    destruct (String.eqb host "::"); simpl.
    + destruct v6_only; simpl; split; congruence.
    + split; discriminate.
  - pose proof (network_setup_cases e self) as H.
    destruct (network_setup e self) as [self'|]; [|exact I].
    destruct H as (_ & _ & _ & [H|[_ H]]); [auto|].
    intros h Hh Hclass. exfalso. apply Hclass.
    unfold ServerClass. now rewrite (H h Hh).
Qed.

End NetworkProps.

(** ** Template filters and template folders *)

Module JinjaProps.
Import Jinja.

Lemma escape_is_escaped (quote : ascii) :
  Ascii.eqb backslash quote = false ->
  forall text b, escaped quote b (escape quote b text) = true.
Proof.
  intros Hq. induction text as [|c text IH]; intros b; [reflexivity|].
  cbn [escape].
  destruct (Ascii.eqb c quote) eqn:E; destruct b; cbn [andb negb escaped];
    rewrite ?E, ?Hq, ?Ascii.eqb_refl, ?orb_true_r; cbn [negb orb andb];
    apply IH.
Qed.

Lemma escaped_is_fixed (quote : ascii) :
  forall text b, escaped quote b text = true -> escape quote b text = text.
Proof.
  induction text as [|c text IH]; intros b; [reflexivity|].
  cbn [escape escaped]. intros H. apply andb_true_iff in H as [H1 H2].
  destruct (Ascii.eqb c quote); destruct b; cbn [negb orb andb] in *;
    try discriminate; f_equal; now apply IH.
Qed.

Lemma escape_fixed_iff (quote : ascii) (text : string) :
  Ascii.eqb backslash quote = false ->
  (escape quote false text = text <-> escaped quote false text = true).
Proof.
  intros Hq. split.
  - intros H. rewrite <- H. now apply escape_is_escaped.
  - apply escaped_is_fixed.
Qed.

(** X5: after [escape_single_quote] every single quote of the text follows
    a backslash, and after [escape_double_quote] every double quote does;
    the filters change a text exactly when it holds a quote that does not
    follow a backslash, so applying a filter twice is the same as applying
    it once. *)
Theorem escape_quote_filters_idempotent (text : string) :
  escaped single_quote false (escape_single_quote text) = true
  /\ escaped double_quote false (escape_double_quote text) = true
  /\ (escape_single_quote text = text <-> escaped single_quote false text = true)
  /\ (escape_double_quote text = text <-> escaped double_quote false text = true)
  /\ escape_single_quote (escape_single_quote text) = escape_single_quote text
  /\ escape_double_quote (escape_double_quote text) = escape_double_quote text.
Proof.
  unfold escape_single_quote, escape_double_quote.
  split; [now apply escape_is_escaped|].
  split; [now apply escape_is_escaped|].
  split; [now apply escape_fixed_iff|].
  split; [now apply escape_fixed_iff|].
  split; apply escaped_is_fixed; now apply escape_is_escaped.
Qed.

(** X6: registering the templates of a plugin never replaces a loader
    that is already in the mapping, under the plugin's own key or any
    other; registering twice is registering once; and unregistering after
    registering leaves the mapping without the plugin's key (when the
    plugin has a template folder; a plugin without one is ignored by
    both), so for a key that was free the mapping is as it was. *)
Theorem template_registration_round_trip
    (plugin : template_plugin) (mapping : gmap string loader) :
  (forall key l,
     mapping !! key = Some l ->
     _register_additional_template_plugin plugin mapping !! key = Some l)
  /\ _register_additional_template_plugin plugin
       (_register_additional_template_plugin plugin mapping)
     = _register_additional_template_plugin plugin mapping
  /\ _unregister_additional_template_plugin plugin
       (_register_additional_template_plugin plugin mapping)
     = match get_template_folder plugin with
       | Some _ => delete (template_folder_key plugin) mapping
       | None => mapping
       end
  /\ (mapping !! template_folder_key plugin = None ->
      _unregister_additional_template_plugin plugin
        (_register_additional_template_plugin plugin mapping)
      = mapping)
  /\ (mapping !! template_folder_key plugin = None ->
      forall folder, get_template_folder plugin = Some folder ->
      _register_additional_template_plugin plugin mapping
        !! template_folder_key plugin
      = Some (loader_for plugin folder)).
Proof.
  unfold _register_additional_template_plugin,
    _unregister_additional_template_plugin.
  destruct (get_template_folder plugin) as [folder|] eqn:Hf;
    [|repeat split; auto; intros; discriminate].
  destruct (mapping !! template_folder_key plugin) as [l0|] eqn:Hk.
  - rewrite Hk. repeat split; auto; try discriminate.
  - rewrite !lookup_insert_eq. split; [|split; [|split; [|split]]].
    + intros key l Hl. rewrite lookup_insert_ne; [exact Hl|congruence].
    + reflexivity.
    + apply delete_insert_eq.
    + intros _. rewrite delete_insert_eq. now apply delete_id.
    + intros _ folder' [= <-]. reflexivity.
Qed.

Lemma template_registration_round_trip_witness :
  _unregister_additional_template_plugin
    (TemplatePlugin (Some "/plugins/foo/templates") "foo" [] false true)
    (_register_additional_template_plugin
       (TemplatePlugin (Some "/plugins/foo/templates") "foo" [] false true)
       {["bar" := FilteredFileSystemLoader ["/plugins/bar/templates"]]})
  = {["bar" := FilteredFileSystemLoader ["/plugins/bar/templates"]]}.
Proof.
  apply (proj1 (proj2 (proj2 (proj2
    (template_registration_round_trip
       (TemplatePlugin (Some "/plugins/foo/templates") "foo" [] false true)
       {["bar" := FilteredFileSystemLoader ["/plugins/bar/templates"]]}))))).
  reflexivity.
Defined.

End JinjaProps.

(** ** Loading the user of a request *)

Module AccessProps.
Import Access.

(** X7: apart from the API user, [load_user] only hands out a user the
    user manager found for the id and that is active; when the session
    carries a session id, the user was looked up with that session and the
    stored signature (the empty one if none is stored) validated for id and
    session.  Without an id there is no user. *)
Theorem load_user_active_and_signed
    (api : user) (find_user : string -> option (string * bool) -> option user)
    (validate : string -> string -> string -> bool)
    (s : session) (id : option string) (u : user) :
  load_user api find_user validate s id = Some u ->
  exists i,
    id = Some i
    /\ ((i = "_api" /\ u = api)
        \/ (i <> "_api"
            /\ is_active u = true
            /\ if truthy (usersession_id s)
               then find_user i (Some (default "" (usersession_id s),
                                       default false (_fresh s))) = Some u
                    /\ validate (default "" (usersession_signature s)) i
                         (default "" (usersession_id s)) = true
               else find_user i None = Some u)).
Proof.
  unfold load_user. destruct id as [i|]; [|discriminate].
  intros H. exists i. split; [reflexivity|].
  destruct (String.eqb_spec i "_api") as [->|Hne].
  - left. split; [reflexivity|congruence].
  - right. split; [exact Hne|].
    destruct (truthy (usersession_id s)); simpl in H.
    + destruct (find_user i _) as [u'|]; [|discriminate].
      destruct (is_active u') eqn:Ha; [|discriminate]. simpl in H.
      destruct (validate _ i _) eqn:Hv; [|discriminate].
      injection H as <-. auto.
    + destruct (find_user i None) as [u'|]; [|discriminate].
      destruct (is_active u') eqn:Ha; [|discriminate]. simpl in H.
      injection H as <-. auto.
Qed.

Lemma load_user_active_and_signed_witness :
  exists i,
    Some "alice" = Some i
    /\ ((i = "_api" /\ User "alice" true = User "_api" true)
        \/ (i <> "_api"
            /\ true = true
            /\ everyone i (Some ("s1", false)) = Some (User "alice" true)
            /\ accepts_sig "sig" i "s1" = true)).
Proof.
  exact (load_user_active_and_signed (User "_api" true) everyone accepts_sig
           (Session (Some "s1") (Some "sig") None) (Some "alice")
           (User "alice" true) eq_refl).
Defined.

(** X8: with neither [trustBasicAuthentication] nor [trustRemoteUser] set,
    the user of a request is the user of its API key and nothing else: the
    authorization header and the remote-user header are not consulted.  A
    user found for the API key wins whatever the settings; the remote-user
    header counts only if the API key and the basic authentication gave no
    user. *)
Theorem load_user_from_request_trust
    {request : Type} (get_api_key : request -> option string)
    (get_user_for_apikey : string -> option user)
    (by_header by_header' by_remote by_remote' : request -> option user)
    (trust_basic trust_remote : bool) (r : request) :
  load_user_from_request get_api_key get_user_for_apikey by_header by_remote
    false false r
  = load_user_from_request get_api_key get_user_for_apikey by_header' by_remote'
      false false r
  /\ load_user_from_request get_api_key get_user_for_apikey by_header by_remote
       false false r
     = (if truthy (get_api_key r)
        then get_user_for_apikey (default "" (get_api_key r)) else None)
  /\ match load_user_from_request get_api_key get_user_for_apikey by_header
             by_remote false false r with
     | Some u =>
         load_user_from_request get_api_key get_user_for_apikey by_header'
           by_remote' trust_basic trust_remote r = Some u
     | None =>
         load_user_from_request get_api_key get_user_for_apikey by_header
           by_remote trust_basic trust_remote r
         = match (if trust_basic then by_header r else None) with
           | Some u => Some u
           | None => if trust_remote then by_remote r else None
           end
     end.
Proof.
  unfold load_user_from_request.
  destruct (truthy (get_api_key r)); simpl.
  - destruct (get_user_for_apikey _); repeat split.
  - repeat split.
Qed.

End AccessProps.

(** ** Refreshing the list of serial ports *)

Module SerialProps.
Import Serial.

Lemma ltb_asym a b : String.ltb a b = true -> String.ltb b a = false.
Proof.
  intros H. apply PreemptiveCacheProps.ltb_lt in H.
  destruct (String.ltb b a) eqn:E; [|reflexivity].
  apply PreemptiveCacheProps.ltb_lt in E.
  pose proof (PreemptiveCacheProps.compare_lt_trans a b a H E) as Hc.
  rewrite PreemptiveCacheProps.compare_refl in Hc. discriminate.
Qed.

Lemma not_ltb_le a b :
  String.ltb b a = false <-> String.compare a b = Lt \/ a = b.
Proof.
  split.
  - intros H. destruct (PreemptiveCacheProps.compare_total a b) as [L|[E|L]];
      [now left|now right|].
    apply PreemptiveCacheProps.ltb_lt in L. congruence.
  - intros [L| ->].
    + apply ltb_asym. now apply PreemptiveCacheProps.ltb_lt.
    + unfold String.ltb. now rewrite PreemptiveCacheProps.compare_refl.
Qed.

Lemma not_ltb_trans a b c :
  String.ltb b a = false -> String.ltb c b = false -> String.ltb c a = false.
Proof.
  rewrite !not_ltb_le. intros [H1| ->] [H2| ->]; auto.
  left. now apply (PreemptiveCacheProps.compare_lt_trans a b c).
Qed.

Lemma not_ltb_antisym a b :
  String.ltb b a = false -> String.ltb a b = false -> a = b.
Proof.
  rewrite !not_ltb_le. intros [H1| ->] [H2|H2]; auto.
  pose proof (PreemptiveCacheProps.compare_lt_trans a b a H1 H2) as Hc.
  rewrite PreemptiveCacheProps.compare_refl in Hc. discriminate.
Qed.

(** Sorting strings forgets the order of the input. *)
Lemma sorted_strings_permutation (l1 l2 : list string) :
  Permutation l1 l2 -> sorted String.ltb l1 = sorted String.ltb l2.
Proof.
  intros HP.
  apply (StronglySorted_unique_strong (fun a b => String.ltb b a = false)).
  - intros x1 x2 _ _. apply not_ltb_antisym.
  - apply sorted_strongly; [apply ltb_asym|apply not_ltb_trans].
  - apply sorted_strongly; [apply ltb_asym|apply not_ltb_trans].
  - rewrite !sorted_perm. exact HP.
Qed.

(** X9: the refresh remembers the sorted list of ports and fires the
    refresh event, with that sorted list as payload, exactly when it
    differs from the list remembered before: the first refresh always
    fires, also without any port, and a refresh that finds the same ports
    as the one before, in whatever order the system reports them, fires
    nothing. *)
Theorem refresh_fires_on_change_only
    (serialList : list string) (last_ports : option (list string)) :
  (refresh_serial_list serialList last_ports).1
  = Some (sorted String.ltb serialList)
  /\ Permutation (sorted String.ltb serialList) serialList
  /\ StronglySorted (fun a b => String.ltb b a = false)
                    (sorted String.ltb serialList)
  /\ ((refresh_serial_list serialList last_ports).2 = []
      <-> last_ports = Some (sorted String.ltb serialList))
  /\ (last_ports <> Some (sorted String.ltb serialList) ->
      List.filter (fun a => match a with Fire _ _ => true | _ => false end)
        (refresh_serial_list serialList last_ports).2
      = [Fire CONNECTIONS_AUTOREFRESHED (sorted String.ltb serialList)])
  /\ (refresh_serial_list serialList None).2 <> []
  /\ (forall again,
        Permutation again serialList ->
        (refreshes [serialList; again] last_ports).2
        = (refresh_serial_list serialList last_ports).2).
Proof.
  split; [reflexivity|]. split; [apply sorted_perm|].
  split; [apply sorted_strongly; [apply ltb_asym|apply not_ltb_trans]|].
  unfold refreshes, refresh_serial_list. simpl.
  split; [|split; [|split]].
  - destruct (decide (Some (sorted String.ltb serialList) = last_ports));
      split; try congruence; discriminate.
  - intros H.
    destruct (decide (Some (sorted String.ltb serialList) = last_ports));
      [congruence|reflexivity].
  - destruct (decide (Some (sorted String.ltb serialList) = None));
      [discriminate|discriminate].
  - intros again HP.
    rewrite (sorted_strings_permutation again serialList HP).
    destruct (decide (Some (sorted String.ltb serialList)
                      = Some (sorted String.ltb serialList))); [|congruence].
    now rewrite !app_nil_r.
Qed.

Lemma refresh_fires_on_change_only_witness :
  List.filter (fun a => match a with Fire _ _ => true | _ => false end)
    (refresh_serial_list ["/dev/ttyUSB1"; "/dev/ttyACM0"]
       (Some ["/dev/ttyACM0"])).2
  = [Fire CONNECTIONS_AUTOREFRESHED
       (sorted String.ltb ["/dev/ttyUSB1"; "/dev/ttyACM0"])]
  /\ (refreshes [["/dev/ttyUSB1"; "/dev/ttyACM0"];
                 ["/dev/ttyACM0"; "/dev/ttyUSB1"]]
        (Some ["/dev/ttyACM0"])).2
     = (refresh_serial_list ["/dev/ttyUSB1"; "/dev/ttyACM0"]
          (Some ["/dev/ttyACM0"])).2.
Proof.
  pose proof (refresh_fires_on_change_only ["/dev/ttyUSB1"; "/dev/ttyACM0"]
                (Some ["/dev/ttyACM0"])) as
    (_ & _ & _ & _ & Hfire & _ & Hagain).
  split.
  - apply Hfire. vm_compute. discriminate.
  - apply Hagain. apply perm_swap.
Defined.

End SerialProps.

(** ** Instances made by plugin factories *)

Module FactoriesProps.
Import Factories.

Lemma setup_printer_prefix {P : Type} (Printer : P)
    (pre rest : list (string * outcome (option P))) :
  forallb gives_nothing pre = true ->
  _setup_printer Printer (pre ++ rest)
  = ((_setup_printer Printer rest).1.1,
     pre.*1 ++ (_setup_printer Printer rest).1.2,
     map creation_error (List.filter (fun f => is_raised f.2) pre).*1
     ++ (_setup_printer Printer rest).2).
Proof.
  induction pre as [|[name f] pre IH]; simpl.
  - intros _. now destruct (_setup_printer Printer rest) as [[? ?] ?].
  - unfold gives_nothing at 1. simpl. intros H.
    destruct f as [[p|]|e]; [discriminate| |]; rewrite IH by exact H;
      reflexivity.
Qed.

(** X10: the printer is made by the first factory, in hook order, that
    returns an instance; the factories before it are all called, each one
    that raises is logged with its plugin's name, and the factories after
    it are not called.  When no factory returns an instance, every factory
    is called and the printer is the default [Printer]. *)
Theorem setup_printer_first_factory_wins {P : Type} (Printer : P) :
  (forall pre name printer post,
     forallb gives_nothing pre = true ->
     _setup_printer Printer (pre ++ (name, Returned (Some printer)) :: post)
     = (printer, pre.*1 ++ [name],
        map creation_error (List.filter (fun f => is_raised f.2) pre).*1
        ++ [debug ("Created printer instance from factory " ++ name)]))
  /\ (forall factories,
        forallb gives_nothing factories = true ->
        _setup_printer Printer factories
        = (Printer, factories.*1,
           map creation_error
               (List.filter (fun f => is_raised f.2) factories).*1)).
Proof.
  split.
  - intros pre name printer post H.
    rewrite (setup_printer_prefix Printer pre _ H). reflexivity.
  - intros factories H.
    rewrite <- (app_nil_r factories) at 1.
    rewrite (setup_printer_prefix Printer factories [] H). simpl.
    now rewrite !app_nil_r.
Qed.

Lemma setup_printer_first_factory_wins_witness :
  _setup_printer "Printer"
    ([("a", Returned None); ("b", Raised (Exception "broken"))]
     ++ ("c", Returned (Some "virtual")) :: [("d", Returned (Some "other"))])
  = ("virtual", ["a"; "b"; "c"],
     [creation_error "b"; debug "Created printer instance from factory c"])
  /\ _setup_printer "Printer" [("a", Returned None); ("b", Returned None)]
     = ("Printer", ["a"; "b"], []).
Proof.
  split.
  - exact (proj1 (setup_printer_first_factory_wins "Printer")
             [("a", Returned None); ("b", Raised (Exception "broken"))]
             "c" "virtual" [("d", Returned (Some "other"))] eq_refl).
  - exact (proj2 (setup_printer_first_factory_wins "Printer")
             [("a", Returned None); ("b", Returned None)] eq_refl).
Defined.

End FactoriesProps.

(** ** Registering and removing lifecycle callbacks *)

Module CallbackProps.
Import Lifecycle Callbacks.

Section Registry.
Context {W plugin : Type}.
Implicit Types (s : st W plugin) (cb : callback W plugin)
  (d : gmap string (list (callback W plugin))).

Lemma add_step_lookup d cb event ev :
  default []
    ((let '(l, d') := dd_getitem d event in <[event := l ++ [cb]]> d') !! ev)
  = default [] (d !! ev) ++ (if String.eqb ev event then [cb] else []).
Proof.
  unfold dd_getitem.
  destruct (String.eqb_spec ev event) as [->|Hne].
  - destruct (d !! event) as [l|] eqn:E; rewrite lookup_insert_eq; reflexivity.
  - destruct (d !! event) as [l|] eqn:E;
      rewrite !lookup_insert_ne by congruence; now rewrite app_nil_r.
Qed.

Lemma add_fold_lookup cb events d ev :
  default []
    (fold_left
       (fun d event =>
          let '(l, d') := dd_getitem d event in <[event := l ++ [cb]]> d')
       events d !! ev)
  = default [] (d !! ev) ++ repeat cb (mentions ev events).
Proof.
  revert d. induction events as [|event events IH]; intros d.
  - simpl. now rewrite app_nil_r.
  - cbn [fold_left]. rewrite IH, add_step_lookup. unfold mentions. simpl.
    destruct (String.eqb ev event); simpl.
    + now rewrite <- app_assoc.
    + now rewrite app_nil_r.
Qed.

Lemma registered_add events cb s ev :
  registered (add_callback events cb s) ev
  = registered s ev ++ repeat cb (mentions ev (as_list events)).
Proof. unfold registered, add_callback. simpl. apply add_fold_lookup. Qed.

Lemma cb_remove_absent cb (l : list (callback W plugin)) :
  cb_in cb l = false -> cb_remove cb l = l.
Proof.
  induction l as [|c l IH]; simpl; [reflexivity|].
  destruct (Nat.eqb (cb_id c) (cb_id cb)); simpl; [discriminate|].
  intros H. now rewrite IH.
Qed.

Lemma cb_remove_first cb (pre post : list (callback W plugin)) c :
  cb_in cb pre = false -> cb_id c = cb_id cb ->
  cb_remove cb (pre ++ c :: post) = pre ++ post.
Proof.
  intros Hpre Hc. induction pre as [|x pre IH]; simpl in *.
  - now rewrite Hc, Nat.eqb_refl.
  - destruct (Nat.eqb (cb_id x) (cb_id cb)); simpl in *; [discriminate|].
    now rewrite IH.
Qed.

Lemma registered_remove_all cb s ev :
  registered (remove_callback cb None s) ev = cb_remove cb (registered s ev).
Proof.
  unfold registered, remove_callback. simpl. rewrite lookup_fmap.
  destruct (plugin_lifecycle_callbacks s !! ev) as [l|]; simpl; [|reflexivity].
  destruct (cb_in cb l) eqn:E; [reflexivity|].
  now rewrite cb_remove_absent.
Qed.

Lemma remove_step_lookup d cb event ev :
  default []
    ((let '(l, d') := dd_getitem d event in
      if cb_in cb l then <[event := cb_remove cb l]> d' else d') !! ev)
  = if String.eqb ev event then cb_remove cb (default [] (d !! ev))
    else default [] (d !! ev).
Proof.
  unfold dd_getitem.
  destruct (String.eqb_spec ev event) as [->|Hne].
  - destruct (d !! event) as [l|] eqn:E; simpl.
    + destruct (cb_in cb l) eqn:Hin.
      * now rewrite lookup_insert_eq.
      * rewrite E. simpl. now rewrite cb_remove_absent.
    + now rewrite lookup_insert_eq.
  - destruct (d !! event) as [l|] eqn:E; simpl.
    + destruct (cb_in cb l); [now rewrite lookup_insert_ne by congruence|].
      reflexivity.
    + now rewrite lookup_insert_ne by congruence.
Qed.

Lemma remove_fold_lookup cb events d ev :
  default []
    (fold_left
       (fun d event =>
          let '(l, d') := dd_getitem d event in
          if cb_in cb l then <[event := cb_remove cb l]> d' else d')
       events d !! ev)
  = Nat.iter (mentions ev events) (cb_remove cb) (default [] (d !! ev)).
Proof.
  revert d. induction events as [|event events IH]; intros d.
  - reflexivity.
  - cbn [fold_left]. rewrite IH, remove_step_lookup. unfold mentions. simpl.
    destruct (String.eqb ev event); simpl; [|reflexivity].
    generalize (length (List.filter (String.eqb ev) events)).
    intros n. induction n as [|n IHn]; simpl; [reflexivity|].
    now rewrite IHn.
Qed.

Lemma registered_remove_some cb events s ev :
  registered (remove_callback cb (Some events) s) ev
  = Nat.iter (mentions ev (as_list events)) (cb_remove cb) (registered s ev).
Proof. unfold registered, remove_callback. simpl. apply remove_fold_lookup. Qed.

End Registry.

(** X11: [add_callback] appends the callback to the callbacks of each event
    it is given, once for every time the event is named, behind the
    callbacks registered before; the callbacks of every other event, the
    log and the world stay as they are.  A single event given as a string
    is one mention of that event. *)
Theorem add_callback_appends {W plugin : Type}
    (events : events_arg) (cb : callback W plugin) (s : st W plugin)
    (ev : string) :
  registered (add_callback events cb s) ev
  = registered s ev ++ repeat cb (mentions ev (as_list events))
  /\ logger (add_callback events cb s) = logger s
  /\ world (add_callback events cb s) = world s
  /\ calls (add_callback events cb s) = calls s
  /\ registered (add_callback (EventStr ev) cb s) ev = registered s ev ++ [cb]
  /\ (mentions ev (as_list events) = 0%nat ->
      registered (add_callback events cb s) ev = registered s ev).
Proof.
  split; [apply registered_add|]. repeat split.
  - rewrite registered_add. unfold mentions. simpl.
    now rewrite String.eqb_refl.
  - intros H. rewrite registered_add, H. simpl. now rewrite app_nil_r.
Qed.

Lemma add_callback_appends_witness :
  registered (add_callback (EventList ["enabled"; "disabled"]) B fresh) "loaded"
  = registered fresh "loaded".
Proof.
  apply (proj2 (proj2 (proj2 (proj2 (proj2
    (add_callback_appends (EventList ["enabled"; "disabled"]) B fresh
       "loaded")))))).
  reflexivity.
Defined.

(** X12: [remove_callback] without events takes, from the callbacks of
    every event, the first callback that is the given one and nothing else;
    with events it does so for each event given, once for every time the
    event is named, and leaves the other events alone.  A callback that is
    registered twice for an event is still registered once afterwards. *)
Theorem remove_callback_removes_first {W plugin : Type}
    (cb : callback W plugin) (events : events_arg) (s : st W plugin)
    (ev : string) :
  registered (remove_callback cb None s) ev = cb_remove cb (registered s ev)
  /\ registered (remove_callback cb (Some events) s) ev
     = Nat.iter (mentions ev (as_list events)) (cb_remove cb) (registered s ev)
  /\ (forall pre c post,
        registered s ev = pre ++ c :: post ->
        cb_in cb pre = false -> cb_id c = cb_id cb ->
        registered (remove_callback cb None s) ev = pre ++ post)
  /\ (cb_in cb (registered s ev) = false ->
      registered (remove_callback cb None s) ev = registered s ev).
Proof.
  split; [apply registered_remove_all|].
  split; [apply registered_remove_some|]. split.
  - intros pre c post Hreg Hpre Hc.
    rewrite registered_remove_all, Hreg. now apply cb_remove_first.
  - intros H. rewrite registered_remove_all. now apply cb_remove_absent.
Qed.

Lemma remove_callback_removes_first_witness :
  registered
    (remove_callback B None
       (add_callback (EventStr "enabled") B subscribed_A_B)) "enabled"
  = [A] ++ [B].
Proof.
  apply (proj1 (proj2 (proj2
    (remove_callback_removes_first B (EventStr "enabled")
       (add_callback (EventStr "enabled") B subscribed_A_B) "enabled")))
    [A] B [B]); reflexivity.
Defined.

(** X13: for a callback that is not registered for any event, registering
    it for a list of distinct events and then removing it without events
    brings back the callbacks of every event as they were. *)
Theorem add_then_remove_restores {W plugin : Type}
    (cb : callback W plugin) (events : events_arg) (s : st W plugin) :
  NoDup (as_list events) ->
  (forall ev, cb_in cb (registered s ev) = false) ->
  forall ev,
    registered (remove_callback cb None (add_callback events cb s)) ev
    = registered s ev.
Proof.
  intros Hnd Hfree ev.
  rewrite registered_remove_all, registered_add.
  assert (Hm : (mentions ev (as_list events) <= 1)%nat).
  { unfold mentions. induction Hnd as [|e l Hnotin Hnd IH]; simpl; [lia|].
    destruct (String.eqb_spec ev e) as [->|Hne]; [|exact IH].
    simpl. assert (Hz : List.filter (String.eqb e) l = []).
    { clear IH Hnd. induction l as [|x l IHl]; simpl; [reflexivity|].
      destruct (String.eqb_spec e x) as [->|Hne].
      - exfalso. apply Hnotin. left.
      - apply IHl. intros Hin. apply Hnotin. now right. }
    rewrite Hz. simpl. lia. }
  destruct (mentions ev (as_list events)) as [|[|n]]; [| |lia]; simpl.
  - rewrite app_nil_r. apply cb_remove_absent, Hfree.
  - rewrite (cb_remove_first cb (registered s ev) [] cb);
      [now rewrite app_nil_r|apply Hfree|reflexivity].
Qed.

Lemma add_then_remove_restores_witness :
  registered
    (remove_callback B None
       (add_callback (EventList ["enabled"; "disabled"]) B
          (add_callback (EventStr "enabled") A fresh))) "enabled"
  = registered (add_callback (EventStr "enabled") A fresh) "enabled".
Proof.
  apply (add_then_remove_restores B (EventList ["enabled"; "disabled"])
           (add_callback (EventStr "enabled") A fresh)).
  - apply NoDup_cons. split.
    + intros H. apply list_elem_of_In in H. simpl in H.
      intuition discriminate.
    + apply NoDup_cons. split; [intros H; inversion H|constructor].
  - intros ev. rewrite registered_add. unfold registered, mentions. simpl.
    destruct (String.eqb ev "enabled"); reflexivity.
Defined.

End CallbackProps.

(** ** A dispatch that does not end *)

Module DispatchLoopProps.
Import Lifecycle Dispatch.

Lemma lookup_repeat_last {A} (x : A) (i : nat) : repeat x (S i) !! i = Some x.
Proof. induction i as [|i IH]; [reflexivity|exact IH]. Qed.

(** While the list holds one [Repeater] more than the position, entering
    the one at the position adds another: the walk does not reach the end
    of the list. *)
Lemma walk_never_ends (fuel : nat) : forall (i : nat) (s : st (list string) unit),
  registered s "enabled" = repeat Repeater (S i) ->
  walk leave_and_join fuel "enabled" i "pluginX" tt s = None.
Proof.
  induction fuel as [|fuel IH]; intros i s Hreg; [reflexivity|].
  cbn [walk]. rewrite Hreg, lookup_repeat_last.
  unfold enter, invoke. cbn [Repeater cb_call cb_id leave_and_join fold_left perform].
  apply IH. rewrite CallbackProps.registered_add.
  unfold registered at 1. cbn [plugin_lifecycle_callbacks].
  fold (registered s "enabled"). rewrite Hreg.
  change (repeat Repeater (Callbacks.mentions "enabled" (as_list (EventStr "enabled"))))
    with [Repeater].
  change (repeat Repeater (S (S i))) with (Repeater :: repeat Repeater (S i)).
  rewrite (repeat_cons (S i) Repeater). reflexivity.
Qed.

(** A callback that registers itself for the event at every call keeps
    the dispatch of that event running: it yields no result, however many
    rounds it is given. *)
Lemma dispatch_never_ends (fuel : nat) :
  dispatch leave_and_join fuel "enabled" "pluginX" tt subscribed_Repeater = None.
Proof.
  destruct (DispatchProps.dispatch_walk leave_and_join "enabled" "pluginX" tt
              fuel subscribed_Repeater) as (d & -> & Hd).
  apply walk_never_ends. unfold registered at 1.
  cbn [plugin_lifecycle_callbacks set_callbacks]. rewrite Hd. reflexivity.
Qed.

End DispatchLoopProps.

(** ** Permissions contributed by plugins *)

Module PluginPermissionsProps.
Import PluginPermissions.

Section Registry.
Context {R perm : Type}.
Variable find : R -> string -> option perm.
Variable set : R -> string -> @plugin_permission perm -> R.

Lemma process_cases (reg : R) info d :
  match find_all find reg (d_permissions d) with
  | None => process_regular_permission find set reg info d = (reg, false, [])
  | Some _ =>
      (process_regular_permission find set reg info d).1.2 = true
      /\ (process_regular_permission find set reg info d).2
         = [Added (pi_key info) (permission_key (pi_key info) d)]
  end.
Proof.
  unfold process_regular_permission.
  destruct (find_all find reg (d_permissions d)); auto.
Qed.

Lemma key_whitelist_matches key : key_whitelist_match key = true.
Proof.
  unfold key_whitelist_match.
  replace key_whitelist
    with (Some (Regex.Cat
                  (Regex.Star
                     (Regex.Class false
                        [("A", "Z"); ("a", "z"); ("0", "9"); ("_", "_")]%char))
                  Regex.Empty))
    by (vm_compute; reflexivity).
  destruct key; reflexivity.
Qed.

Lemma add_permission_complete name info (a : @acc R) d :
  add_permission find set name info a (Complete d)
  = ((process_regular_permission find set a.1.1 info d).1.1,
     (if (process_regular_permission find set a.1.1 info d).1.2
      then a.1.2 else a.1.2 ++ [(info, d)]),
     a.2 ++ (process_regular_permission find set a.1.1 info d).2,
     Returned tt).
Proof.
  destruct a as [[reg postponed] log]. unfold add_permission.
  rewrite key_whitelist_matches. cbn [negb fst snd].
  destruct (process_regular_permission find set reg info d) as [[r ok] evs].
  reflexivity.
Qed.

Lemma add_permission_log name info (a : @acc R) p :
  List.filter is_invalid_key (add_permission find set name info a p).1.2
  = List.filter is_invalid_key a.2.
Proof.
  destruct p as [| | |d];
    try (destruct a as [[reg postponed] log]; reflexivity).
  rewrite add_permission_complete. cbn [fst snd].
  pose proof (process_cases a.1.1 info d) as H.
  destruct (find_all find a.1.1 (d_permissions d)) as [ps|].
  - destruct H as [_ Hl]. rewrite Hl, List.filter_app. simpl.
    now rewrite app_nil_r.
  - rewrite H. simpl. now rewrite app_nil_r.
Qed.

Lemma add_permissions_log name info entries (a : @acc R) :
  List.filter is_invalid_key
    (add_permissions find set name info a entries).1.2
  = List.filter is_invalid_key a.2.
Proof.
  revert a. induction entries as [|p entries IH]; intros a; [reflexivity|].
  cbn [add_permissions].
  pose proof (add_permission_log name info a p) as Hp.
  destruct (add_permission find set name info a p) as [a' [[]|e]];
    cbn [fst snd] in *; [|exact Hp].
  now rewrite IH.
Qed.

Lemma hook_step_log get_plugin_info (a : @acc R) nf :
  List.filter is_invalid_key (hook_step find set get_plugin_info a nf).2
  = List.filter is_invalid_key a.2.
Proof.
  assert (Herr : forall (a0 : @acc R) name,
    List.filter is_invalid_key (a0.2 ++ [HookError name])
    = List.filter is_invalid_key a0.2).
  { intros a0 name. rewrite List.filter_app. simpl. now rewrite app_nil_r. }
  assert (Hsome : forall name entries,
    List.filter is_invalid_key
      (match add_permissions find set name (get_plugin_info name) a entries with
       | (a', Returned _) => a'
       | (a', Raised _) => (a'.1.1, a'.1.2, a'.2 ++ [HookError name])
       end).2
    = List.filter is_invalid_key a.2).
  { intros name entries.
    pose proof (add_permissions_log name (get_plugin_info name) entries a) as H.
    destruct (add_permissions find set name (get_plugin_info name) a entries)
      as [a' [[]|e]]; cbn [fst snd] in *; [exact H|].
    now rewrite Herr. }
  destruct nf as [name f]. unfold hook_step.
  destruct f as [entries|[[entries|]|e]|];
    first [apply Hsome|cbn [snd]; apply Herr].
Qed.

Lemma fold_hook_step_log get_plugin_info hooks (a : @acc R) :
  List.filter is_invalid_key
    (fold_left (hook_step find set get_plugin_info) hooks a).2
  = List.filter is_invalid_key a.2.
Proof.
  revert a. induction hooks as [|nf hooks IH]; intros a; [reflexivity|].
  cbn [fold_left]. now rewrite IH, hook_step_log.
Qed.



End Registry.

(** X14: the key whitelist turns no string away.  Its pattern is a starred
    character class, and [re.match] is content with the empty match at the
    head of the key; so the hooks never log the invalid-key warning, and a
    definition with a string key that the loop reaches is handed to
    [process_regular_permission] whatever characters its key holds: the key
    "no key!" of plugin "foo" is set as "PLUGIN_FOO_NO KEY!".  A key that is
    not a string does stop the hook: the match raises inside the [try] of
    the hook, nothing is left of the hook's remaining definitions, and the
    error is logged once for the hook; the definitions before it stay
    registered. *)
Theorem key_whitelist_rejects_nothing {R perm : Type}
    (find : R -> string -> option perm)
    (set : R -> string -> @plugin_permission perm -> R)
    (get_plugin_info : string -> plugin_info) (reg : R)
    (hooks : list (string * factory)) (key name : string)
    (info : plugin_info) (a : @acc R) (d : definition) (rest : list entry) :
  key_whitelist_match key = true
  /\ key_whitelist
     = Some (Regex.Cat
               (Regex.Star
                  (Regex.Class false
                     [("A", "Z"); ("a", "z"); ("0", "9"); ("_", "_")]%char))
               Regex.Empty)
  /\ List.filter is_invalid_key
       (fold_left (hook_step find set get_plugin_info) hooks (reg, [], [])).2
     = []
  /\ add_permission find set name info a (Complete d)
     = ((process_regular_permission find set a.1.1 info d).1.1,
        (if (process_regular_permission find set a.1.1 info d).1.2
         then a.1.2 else a.1.2 ++ [(info, d)]),
        a.2 ++ (process_regular_permission find set a.1.1 info d).2,
        Returned tt)
  /\ add_permissions find set name info a (KeyNotAString :: rest)
     = (a, Raised TypeError)
  /\ hook_step find set get_plugin_info a (name, Listed (KeyNotAString :: rest))
     = (a.1.1, a.1.2, a.2 ++ [HookError name])
  /\ hook_step find_key set_key (fun name => PluginInfo name name) ([], [], [])
       ("foo", Listed [ Complete (Definition_ "no key!" "No key" [] [] "" false []);
                        KeyNotAString;
                        Complete (Definition_ "late" "Late" [] [] "" false []) ])
     = (["PLUGIN_FOO_NO KEY!"], [],
        [Added "foo" "PLUGIN_FOO_NO KEY!"; HookError "foo"]).
Proof.
  split; [apply key_whitelist_matches|].
  split; [vm_compute; reflexivity|].
  split; [apply fold_hook_step_log|].
  split; [apply add_permission_complete|].
  split; [destruct a as [[? ?] ?]; reflexivity|].
  split; [destruct a as [[? ?] ?]; reflexivity|].
  vm_compute. reflexivity.
Qed.



End PluginPermissionsProps.

(** ** Blueprints of plugins *)

Module BlueprintsProps.
Import Blueprints.

Lemma prepare_plugins_spec (plugins : list blueprint_plugin) :
  match (_prepare_blueprint_plugins plugins).1 with
  | Raised e =>
      e = TypeError /\ Exists (fun p => get_blueprint p = None) plugins
  | Returned (blueprints, api_endpoints, registrators) =>
      Forall (fun p => get_blueprint p <> None) plugins
      /\ registrators
         = map (fun p => (_identifier p, ("/plugin/" ++ _identifier p)%string)) plugins
      /\ length blueprints = length plugins
      /\ api_endpoints
         = flat_map (fun p => map (String.append ("/plugin/" ++ _identifier p)%string)
                                  (get_blueprint_api_prefixes p)) plugins
      /\ Forall (fun b => exists p,
                   In p plugins
                   /\ Some b = fst <$> (_prepare_blueprint_plugin p).1)
                blueprints
  end.
Proof.
  induction plugins as [|p rest IH]; simpl.
  - repeat split; constructor.
  - unfold _prepare_blueprint_plugin at 1.
    destruct (get_blueprint p) as [bp|] eqn:Hbp; simpl.
    + destruct (_prepare_blueprint_plugins rest) as [[[[bs eps] regs]|e] log'];
        simpl in *.
      * destruct IH as (Hall & Hregs & Hlen & Heps & Hbs).
        split; [constructor; [congruence|exact Hall]|].
        split; [now rewrite Hregs|]. split; [now rewrite Hlen|].
        split; [now rewrite Heps|]. constructor.
        -- exists p. split; [now left|].
           unfold _prepare_blueprint_plugin. now rewrite Hbp.
        -- eapply List.Forall_impl; [|exact Hbs].
           intros b (q & Hq & Hb). exists q. split; [now right|exact Hb].
      * destruct IH as [-> Hex]. split; [reflexivity|]. now right.
    + split; [reflexivity|]. now left.
Qed.

(** X16: [_prepare_blueprint_plugins] raises, with a [TypeError], exactly
    when one of the plugins has no blueprint; otherwise it gives one
    blueprint and one registrator per plugin, in plugin order, each
    registrator bound to the prefix "/plugin/<identifier>", and the API
    endpoints are the prefixes the plugins give, each behind the prefix of
    its plugin.  On every blueprint the CORS handler comes first, the CSRF
    handler (when the plugin is CSRF protected) before the login handler
    (when the plugin is protected); a plugin without CSRF protection is
    reported with a warning. *)
Theorem prepare_blueprint_plugins_spec
    (plugins : list blueprint_plugin) (plugin : blueprint_plugin) :
  match (_prepare_blueprint_plugins plugins).1 with
  | Raised e =>
      e = TypeError /\ Exists (fun p => get_blueprint p = None) plugins
  | Returned (blueprints, api_endpoints, registrators) =>
      Forall (fun p => get_blueprint p <> None) plugins
      /\ registrators
         = map (fun p => (_identifier p, ("/plugin/" ++ _identifier p)%string)) plugins
      /\ length blueprints = length plugins
      /\ api_endpoints
         = flat_map (fun p => map (String.append ("/plugin/" ++ _identifier p)%string)
                                  (get_blueprint_api_prefixes p)) plugins
      /\ Forall (fun b => exists p,
                   In p plugins
                   /\ Some b = fst <$> (_prepare_blueprint_plugin p).1)
                blueprints
  end
  /\ match _prepare_blueprint_plugin plugin with
     | (None, log) => get_blueprint plugin = None /\ log = []
     | (Some (b, prefix), log) =>
         prefix = ("/plugin/" ++ _identifier plugin)%string
         /\ index_of corsRequestHandler (before_request b) = Some 0%nat
         /\ (index_of csrfRequestHandler (before_request b)
             = if is_blueprint_csrf_protected plugin then Some 1%nat else None)
         /\ (index_of requireLoginRequestHandler (before_request b)
             = if is_blueprint_protected plugin
               then Some (if is_blueprint_csrf_protected plugin
                          then 2%nat else 1%nat)
               else None)
         /\ after_request b = [corsResponseHandler]
         /\ (List.filter (fun r => match lr_level r with
                                   | WARNING => true | _ => false end) log = []
             <-> is_blueprint_csrf_protected plugin = true)
     end.
Proof.
  split; [apply prepare_plugins_spec|].
  unfold _prepare_blueprint_plugin.
  destruct (get_blueprint plugin) as [bp|]; [|auto].
  destruct (is_blueprint_csrf_protected plugin),
    (is_blueprint_protected plugin); simpl; repeat split; auto;
    discriminate.
Qed.

End BlueprintsProps.

(** ** The request of a replayed cache entry *)

Module ReplayRequestProps.
Import ReplayRequest.

(** X17: the request built for a replayed entry takes a key from the
    additional request data when it is there; otherwise it takes the
    entry's own value, but never for a key that starts with "_" (such as
    "_timestamp", "_count" and "_additional_request_data" itself) nor for
    "plugin": these reach the request only through the additional data. *)
Theorem request_kwargs_lookup {V : Type}
    (kwargs : gmap string V) (additional : option (gmap string V))
    (k : string) :
  request_kwargs kwargs additional !! k
  = match default ∅ additional !! k with
    | Some v => Some v
    | None =>
        if private k || String.eqb k "plugin" then None else kwargs !! k
    end
  /\ request_kwargs kwargs None !! "plugin" = None
  /\ request_kwargs kwargs None !! "_timestamp" = None
  /\ request_kwargs kwargs None !! "_count" = None
  /\ request_kwargs kwargs None !! "_additional_request_data" = None.
Proof.
  assert (H : forall a k',
    request_kwargs kwargs a !! k'
    = match default ∅ a !! k' with
      | Some v => Some v
      | None =>
          if private k' || String.eqb k' "plugin" then None else kwargs !! k'
      end).
  { intros a k'. unfold request_kwargs. rewrite lookup_union.
    destruct (default ∅ a !! k') as [v|] eqn:Ea; simpl.
    - now destruct (filter _ kwargs !! k').
    - rewrite (left_id None _).
      destruct (private k' || String.eqb k' "plugin") eqn:Ep.
      + apply map_lookup_filter_None. right. intros x _. simpl.
        apply orb_true_iff in Ep as [-> | ->]; simpl; [auto|].
        rewrite andb_false_r. auto.
      + apply orb_false_iff in Ep as [E1 E2].
        destruct (kwargs !! k') as [x|] eqn:Ek.
        * apply map_lookup_filter_Some. split; [exact Ek|]. simpl.
          now rewrite E1, E2.
        * apply map_lookup_filter_None. now left. }
  split; [apply H|].
  repeat split; rewrite H; simpl; rewrite lookup_empty; reflexivity.
Qed.

End ReplayRequestProps.

(** ** Failure to start the intermediary server *)

Module StartFailureProps.
Import Intermediary.

(** X18: when binding or activating the intermediary server raises, the
    socket is closed as the last call, no serving thread is started, and
    the exception is raised again as it is, except that a
    [UnicodeDecodeError] on Windows becomes a
    [CannotStartServerException]; [run] then ends with that exception
    before any heavy initialisation and never binds the full server.  When
    both succeed the thread is started and the start returns.  Stopping an
    intermediary server that was never created does nothing. *)
Theorem failed_start_closes_socket (e : env) (self : bootstrap) :
  match server_bind e, server_activate e with
  | Returned _, Returned _ =>
      (_start_intermediary_server e self).2 = Returned tt
      /\ In (StartThread "serve") (_start_intermediary_server e self).1.2
      /\ ~ In ServerClose (_start_intermediary_server e self).1.2
  | Raised exc, _ | Returned _, Raised exc =>
      (_start_intermediary_server e self).2
      = Raised (bind_failure (win32 e) exc)
      /\ last (_start_intermediary_server e self).1.2 = Some ServerClose
      /\ ~ In (StartThread "serve") (_start_intermediary_server e self).1.2
      /\ (run e).2 = Raised (bind_failure (win32 e) exc)
      /\ List.filter is_listen (run e).1 = []
      /\ Forall (fun a => match a with
                          | Step name => In name network_setup
                          | _ => True
                          end) (run e).1
      /\ (bind_failure (win32 e) exc = CannotStartServerException
          <-> exc = CannotStartServerException
              \/ (exc = UnicodeDecodeError /\ win32 e = true))
      /\ (bind_failure (win32 e) exc <> CannotStartServerException ->
          bind_failure (win32 e) exc = exc)
  end
  /\ _stop_intermediary_server (Bootstrap false) = [].
Proof.
  split; [|reflexivity].
  unfold run, _start_intermediary_server.
  assert (Hbf : forall w exc,
    (bind_failure w exc = CannotStartServerException
     <-> exc = CannotStartServerException
         \/ (exc = UnicodeDecodeError /\ w = true))
    /\ (bind_failure w exc <> CannotStartServerException ->
        bind_failure w exc = exc)).
  { intros w exc. destruct exc, w; simpl; split; intuition congruence. }
  destruct (server_bind e) as [[]|exc1];
    [destruct (server_activate e) as [[]|exc2]|].
  - destruct (set_close_exec e) as [[]|x]; simpl;
      (split; [reflexivity|]); (split; [tauto|]); intuition discriminate.
  - destruct (Hbf (win32 e) exc2) as [H1 H2].
    destruct (set_close_exec e) as [[]|x]; simpl;
      (split; [reflexivity|]); (split; [reflexivity|]);
      (split; [intuition discriminate|]); (split; [reflexivity|]);
      (split; [reflexivity|]); (split; [|split; assumption]);
      repeat (apply List.Forall_cons; [first [exact I|simpl; auto 10]|]);
      apply List.Forall_nil.
  - destruct (Hbf (win32 e) exc1) as [H1 H2].
    destruct (set_close_exec e) as [[]|x]; simpl;
      (split; [reflexivity|]); (split; [reflexivity|]);
      (split; [intuition discriminate|]); (split; [reflexivity|]);
      (split; [reflexivity|]); (split; [|split; assumption]);
      repeat (apply List.Forall_cons; [first [exact I|simpl; auto 10]|]);
      apply List.Forall_nil.
Qed.

End StartFailureProps.

(** ** Body sizes with a route that is no string *)

Module BodySizeFailureProps.
Import Routes.

(** X19: the route of a body-size entry is not checked before it is
    rewritten.  An entry with a body method and an integer size whose route
    is not a string makes [_get_max_body_sizes] raise, outside the [try]
    that guards the hook, so no list of body sizes is returned, whatever
    the entries and hooks after it.  An entry whose method is not a body
    method or whose size is no integer is skipped whatever its route. *)
Theorem body_size_route_not_checked
    (body_methods : list string) (uploads_max_size : Z)
    (name : string) (h : hook body_size) (post : list (string * hook body_size))
    (method : string) (route size : pyval) (entries : list pyval) :
  h (builtin_body_sizes uploads_max_size)
  = Returned (PyList (PyTuple [PyStr method; route; size] :: entries)) ->
  existsb (String.eqb method) body_methods = true ->
  is_int size = true ->
  (forall s, route <> PyStr s) ->
  _get_max_body_sizes body_methods uploads_max_size ((name, h) :: post)
  = Raised AttributeError.
Proof.
  intros Hh Hm Hs Hr. unfold _get_max_body_sizes. cbn [fold_left].
  unfold body_size_hook_step at 2. cbn [fst]. rewrite Hh. cbn [entries_of fold_left].
  assert (Hbad : add_body_size body_methods name
                   (Returned (builtin_body_sizes uploads_max_size, []))
                   (PyTuple [PyStr method; route; size])
                 = Raised AttributeError).
  { unfold add_body_size, in_methods. rewrite Hm, Hs. simpl.
    destruct route; try reflexivity. exfalso. now apply (Hr s). }
  rewrite Hbad, RoutesProps.fold_add_body_size_raised.
  apply RoutesProps.fold_body_size_hooks_raised.
Qed.

Lemma body_size_route_not_checked_witness :
  _get_max_body_sizes ["POST"; "PATCH"; "PUT"] 1024
    [ ("broken", fun _ => Returned (PyList [PyTuple [PyStr "POST"; PyNone; PyInt 5]]));
      ("fine", fun _ => Returned (PyList [PyTuple [PyStr "POST"; PyStr "up"; PyInt 5]])) ]
  = Raised AttributeError.
Proof.
  apply (body_size_route_not_checked ["POST"; "PATCH"; "PUT"] 1024 "broken"
           (fun _ => Returned (PyList [PyTuple [PyStr "POST"; PyNone; PyInt 5]]))
           _ "POST" PyNone (PyInt 5) []).
  - reflexivity.
  - reflexivity.
  - reflexivity.
  - intros s. discriminate.
Defined.

End BodySizeFailureProps.
